(** * H-Index Viewer: lookup client, coauthor aggregation and pinned sort

    A shallow embedding of [ss_utils.py] (cache, rate-limited HTTP client,
    the three memoised Semantic Scholar lookups) and of the model side of
    [hindex_gui_v3.1.1.py] (coauthor aggregation, flagged-first ordering of
    the Authors and Co-authors tables), followed by the properties of the
    specification that concern them.

    Conventions of the embedding.
    - A Python [str] is a [string] holding its UTF-8 bytes; equality of
      strings and their [<] order (by code point) coincide with equality
      and lexicographic order of the bytes.
    - A JSON-shaped Python value is a [json]; [None] is [JNull]; a [dict]
      is its list of items in insertion order, keys unique.
    - Module state ([cache], the cache file) and the outside world (the
      HTTP requests issued, the calls of [time.sleep]) are threaded
      explicitly through a [World]; [print] is not observed.
    - Library routines whose definition lies outside the repository
      ([str.lower], [str.strip], [urllib.parse.quote_plus], [float], float
      arithmetic) are the fields of the class [PyRuntime]; every theorem
      holds for every instance. *)

From Stdlib Require Import ZArith QArith String Ascii List Permutation Lia.
From stdpp Require Import base option list sorting gmap strings pretty.

Local Open Scope string_scope.
Local Open Scope list_scope.
Local Open Scope Z_scope.

(** ** Python values *)

#[warnings="-register-all"]
Inductive json : Type :=
| JNull
| JBool (b : bool)
| JNum (n : Z)
| JStr (s : string)
| JArr (items : list json)
| JObj (fields : list (string * json)).

(** Truth value of a Python object, as tested by [if x], [not x], [x or y]. *)
Definition truthy (v : json) : bool :=
  match v with
  | JNull => false
  | JBool b => b
  | JNum n => negb (n =? 0)
  | JStr s => negb (String.eqb s "")
  | JArr items => match items with [] => false | _ => true end
  | JObj fields => match fields with [] => false | _ => true end
  end.

(** [x or y] *)
Definition py_or (x y : json) : json := if truthy x then x else y.

(** A [dict] with [str] keys: items in insertion order. *)
Section PyDict.
Context {V : Type}.

(** [d.get(k)] *)
Fixpoint dict_get (k : string) (d : list (string * V)) : option V :=
  match d with
  | [] => None
  | (k', v) :: d' => if String.eqb k k' then Some v else dict_get k d'
  end.

(** [d[k] = v]: an existing key keeps its position, a new key goes last. *)
Fixpoint dict_set (k : string) (v : V) (d : list (string * V)) : list (string * V) :=
  match d with
  | [] => [(k, v)]
  | (k', v') :: d' =>
      if String.eqb k k' then (k, v) :: d' else (k', v') :: dict_set k v d'
  end.
End PyDict.

(** Exceptions that escape the modelled functions. [Unmodelled] marks an
    input on which Python continues with a value the embedding has no
    representation for (a number used as a dictionary key). *)
Inductive exn : Type :=
| AttributeError
| TypeError
| KeyError
| Unmodelled.

Inductive outcome (A : Type) : Type :=
| Return (a : A)
| Raise (e : exn).
Arguments Return {A} a.
Arguments Raise {A} e.

(** ** Strings *)

(** [pat in s] *)
Fixpoint str_contains (pat s : string) : bool :=
  String.prefix pat s ||
  match s with
  | EmptyString => false
  | String _ s' => str_contains pat s'
  end.

(** [s.split(sep)] for a one-character separator. *)
Fixpoint str_split (sep : ascii) (s : string) : list string :=
  match s with
  | EmptyString => [EmptyString]
  | String c s' =>
      if Ascii.eqb c sep then EmptyString :: str_split sep s'
      else match str_split sep s' with
           | [] => [String c EmptyString]
           | hd :: tl => String c hd :: tl
           end
  end.

(** [sep.join(parts)] *)
Definition str_join (sep : string) (parts : list string) : string :=
  String.concat sep parts.

(** Number of bytes of the UTF-8 sequence that starts with byte [c]. *)
Definition utf8_width (c : ascii) : nat :=
  let n := N_of_ascii c in
  if (n <? 192)%N then 1%nat
  else if (n <? 224)%N then 2%nat
  else if (n <? 240)%N then 3%nat
  else 4%nat.

(** [s[0]] for a non-empty [str]: its first character. *)
Definition str_first (s : string) : string :=
  match s with
  | EmptyString => EmptyString
  | String c _ => String.substring 0 (utf8_width c) s
  end.

(** ** Floats as sort keys *)

(** The values [float(...)] can return.  A finite float is the rational it
    denotes. *)
Inductive pyfloat : Type :=
| FNegInf
| FFin (q : Q)
| FPosInf
| FNaN.

(** [a < b] on floats. *)
Definition float_lt (a b : pyfloat) : bool :=
  match a, b with
  | FNaN, _ | _, FNaN => false
  | _, FNegInf => false
  | FNegInf, _ => true
  | FPosInf, _ => false
  | FFin _, FPosInf => true
  | FFin p, FFin q => negb (Qle_bool q p)
  end.

(** ** The Python runtime *)

Class PyRuntime : Type := {
  (** [s.lower()] *)
  str_lower : string → string;
  (** [s.strip()] *)
  str_strip : string → string;
  (** [urllib.parse.quote_plus(s)] *)
  quote_plus : string → string;
  (** [float(s)] for a [str]; [None] when it raises [ValueError]. *)
  float_of_str : string → option pyfloat;
  (** [float(n)] for an [int]; [None] when it raises [OverflowError]. *)
  float_of_int : Z → option pyfloat;
  (** The numbers passed to [time.sleep], with the arithmetic of
      [base_delay * (2 ** attempt) + 1.0].  The operations are total here;
      CPython raises [OverflowError] when [2 ** attempt] does not fit a
      float, which takes more than a thousand attempts. *)
  seconds : Type;
  sec_of_int : Z → seconds;
  sec_one : seconds;
  sec_mul : seconds → seconds → seconds;
  sec_add : seconds → seconds → seconds
}.

(** ** [ss_utils.py] *)

Definition SS_BASE : string := "https://api.semanticscholar.org/graph/v1".
Definition SS_AUTHOR_FIELDS : string := "name,affiliations,hIndex,paperCount".

(** What [requests.get] is called with (the timeout is the constant 30). *)
Record Request : Type := mkRequest {
  url : string;
  headers : list (string * string)
}.

(** A [requests.Response]: [json_body] is the result of [r.json()], [None]
    when that call raises. *)
Record Response : Type := mkResponse {
  status_code : Z;
  text : string;
  json_body : option json
}.

Inductive Reply : Type :=
| NetworkException
| Answer (r : Response).

(** The network: the reply to a request, given the requests issued before
    it. *)
Definition Transport : Type := list Request → Request → Reply.

Record World `{PyRuntime} : Type := mkWorld {
  (** the module-level [cache] dict *)
  cache : gmap string json;
  (** the content of [ss_author_cache.json]; [None] when the file is
      missing or does not parse *)
  cache_file : option (gmap string json);
  (** every [requests.get] performed, oldest first *)
  net_log : list Request;
  (** the argument of every [time.sleep], oldest first *)
  sleep_log : list seconds
}.

Section SsUtils.
Context `{PyRuntime} (transport : Transport).

(** Computations over the module state that may raise. *)
Definition M (A : Type) : Type := World → outcome A * World.

Definition ret {A} (a : A) : M A := λ w, (Return a, w).
Definition bind {A B} (m : M A) (k : A → M B) : M B :=
  λ w, match m w with
       | (Return a, w') => k a w'
       | (Raise e, w') => (Raise e, w')
       end.
(** Lift a pure computation that may raise. *)
Definition lift {A} (o : outcome A) : M A := λ w, (o, w).

#[local] Instance M_ret : MRet M := @ret.
#[local] Instance M_bind : MBind M := λ A B k m, bind m k.

Definition get_cache : M (gmap string json) := λ w, (Return (cache w), w).

(** [cache[key] = v] *)
Definition cache_store (key : string) (v : json) : M unit :=
  λ w, (Return (),
        {| cache := <[key := v]> (cache w); cache_file := cache_file w;
           net_log := net_log w; sleep_log := sleep_log w |}).

(** [load_cache()]: a missing or unreadable file gives the empty cache. *)
Definition load_cache : M (gmap string json) :=
  λ w, let c := default ∅ (cache_file w) in
       (Return c,
        {| cache := c; cache_file := cache_file w;
           net_log := net_log w; sleep_log := sleep_log w |}).

(** [save_cache()]: the whole cache is written out.  (A failing write is
    only printed by the source; the file is not observed by the lookup
    functions.) *)
Definition save_cache : M unit :=
  λ w, (Return (),
        {| cache := cache w; cache_file := Some (cache w);
           net_log := net_log w; sleep_log := sleep_log w |}).

(** [requests.get(url, headers=headers, timeout=30)] *)
Definition requests_get (u : string) (hs : list (string * string))
  : World → Reply * World :=
  λ w, let rq := mkRequest u hs in
       (transport (net_log w) rq,
        {| cache := cache w; cache_file := cache_file w;
           net_log := net_log w ++ [rq]; sleep_log := sleep_log w |}).

(** [time.sleep(wait)] *)
Definition time_sleep (wait : seconds) : World → World :=
  λ w, {| cache := cache w; cache_file := cache_file w;
          net_log := net_log w; sleep_log := sleep_log w ++ [wait] |}.

(** The body of [for attempt in range(max_retries)] in [safe_get]:
    [remaining] iterations are left, the next one has index [attempt]. *)
Fixpoint safe_get_loop (remaining : nat) (attempt : Z)
    (last_resp : option Response) (u : string)
    (hs : list (string * string)) (base_delay : seconds) (w : World)
  : option Response * World :=
  match remaining with
  | O => (last_resp, w)
  | S remaining' =>
      match requests_get u hs w with
      | (NetworkException, w1) => (None, w1)
      | (Answer resp, w1) =>
          if status_code resp =? 200 then (Some resp, w1)
          else if status_code resp =? 429 then
            let wait :=
              sec_add (sec_mul base_delay (sec_of_int (2 ^ attempt))) sec_one in
            safe_get_loop remaining' (attempt + 1) (Some resp) u hs
              base_delay (time_sleep wait w1)
          else if existsb (Z.eqb (status_code resp)) [500; 502; 503; 504] then
            let wait := sec_mul base_delay (sec_of_int (2 ^ attempt)) in
            safe_get_loop remaining' (attempt + 1) (Some resp) u hs
              base_delay (time_sleep wait w1)
          else (Some resp, w1)
      end
  end.

Definition safe_get (u : string) (hs : list (string * string))
    (base_delay : seconds) (max_retries : Z) : M (option Response) :=
  λ w, let '(r, w') :=
         safe_get_loop (Z.to_nat max_retries) 0 None u hs base_delay w in
       (Return r, w').

(** [headers = {}; if api_key: headers['x-api-key'] = api_key] *)
Definition api_headers (api_key : option string) : list (string * string) :=
  match api_key with
  | Some k => if String.eqb k "" then [] else [("x-api-key", k)]
  | None => []
  end.

(** [data = j.get('data', []); top = data[0] if data else None] *)
Definition top_result (j : json) : outcome json :=
  match j with
  | JObj fields =>
      let data := default (JArr []) (dict_get "data" fields) in
      if truthy data then
        match data with
        | JArr (x :: _) => Return x
        | JStr s => Return (JStr (str_first s))
        | JObj _ => Raise KeyError
        | _ => Raise TypeError
        end
      else Return JNull
  | _ => Raise AttributeError
  end.

Definition search_key (name : string) : string := "search::" +:+ name.

Definition search_url (name : string) : string :=
  SS_BASE +:+ "/author/search?query=" +:+ quote_plus name +:+
  "&fields=" +:+ quote_plus SS_AUTHOR_FIELDS +:+ "&limit=5".

Definition ss_search_author (name : string) (api_key : option string)
    (base_delay : seconds) : M json :=
  let cache_key := search_key name in
  c ← get_cache;
  match c !! cache_key with
  | Some v => ret v
  | None =>
      r ← safe_get (search_url name) (api_headers api_key) base_delay 6;
      match r with
      | None => ret JNull
      | Some r =>
          if negb (status_code r =? 200) then ret JNull
          else match json_body r with
               | None => ret JNull
               | Some j =>
                   top ← lift (top_result j);
                   cache_store cache_key top;;
                   save_cache;;
                   ret top
               end
      end
  end.

(** [not author_id] *)
Definition id_missing (author_id : option string) : bool :=
  match author_id with
  | None => true
  | Some s => String.eqb s ""
  end.

Definition id_str (author_id : option string) : string :=
  default "None" author_id.

Definition author_key (author_id : option string) : string :=
  "author::" +:+ id_str author_id.

Definition details_url (author_id : option string) (fields : string) : string :=
  SS_BASE +:+ "/author/" +:+ id_str author_id +:+ "?fields=" +:+ quote_plus fields.

(** [",".join([f for f in tried_fields.split(",")
               if f.strip().lower() != 'aliases'])] *)
Definition drop_aliases (tried_fields : string) : string :=
  str_join ","
    (List.filter (λ f, negb (String.eqb (str_lower (str_strip f)) "aliases"))
                 (str_split "," tried_fields)).

Definition UNSUPPORTED_MARK : string := "Unrecognized or unsupported fields".

(** [r.status_code == 400 and 'Unrecognized or unsupported fields' in
    r.text and 'aliases' in tried_fields] *)
Definition aliases_fallback (r : Response) (tried_fields : string) : bool :=
  (status_code r =? 400) && str_contains UNSUPPORTED_MARK (text r)
  && str_contains "aliases" tried_fields.

(** The body of [for _ in range(2)] in [ss_get_author_details]. *)
Fixpoint details_loop (remaining : nat) (author_id : option string)
    (hs : list (string * string)) (tried_fields : string)
    (base_delay : seconds) : M json :=
  match remaining with
  | O => ret JNull
  | S remaining' =>
      r ← safe_get (details_url author_id tried_fields) hs base_delay 6;
      match r with
      | None => ret JNull
      | Some r =>
          if status_code r =? 200 then
            match json_body r with
            | None => ret JNull
            | Some j =>
                cache_store (author_key author_id) j;;
                save_cache;;
                ret j
            end
          else if aliases_fallback r tried_fields then
            details_loop remaining' author_id hs (drop_aliases tried_fields)
              base_delay
          else ret JNull
      end
  end.

Definition ss_get_author_details (author_id : option string)
    (api_key : option string) (fields : string) (base_delay : seconds)
  : M json :=
  if id_missing author_id then ret JNull
  else
    c ← get_cache;
    match c !! author_key author_id with
    | Some v => ret v
    | None => details_loop 2 author_id (api_headers api_key) fields base_delay
    end.

(** How [ss_get_author_details] ends on the result of a fetch that no
    retry follows: a 200 whose body parses is stored and returned,
    anything else gives [None]. *)
Definition details_outcome (author_id : option string)
    (fetched : outcome (option Response) * World) : outcome json * World :=
  match fetched with
  | (Return (Some r), w1) =>
      if status_code r =? 200 then
        match json_body r with
        | Some j =>
            (Return j,
             {| cache := <[author_key author_id := j]> (cache w1);
                cache_file := Some (<[author_key author_id := j]> (cache w1));
                net_log := net_log w1; sleep_log := sleep_log w1 |})
        | None => (Return JNull, w1)
        end
      else (Return JNull, w1)
  | (Return None, w1) => (Return JNull, w1)
  | (Raise e, w1) => (Raise e, w1)
  end.

(** [co_counts[name] = co_counts.get(name, 0) + 1] *)
Definition count_name (name : string) (co_counts : list (string * Z))
  : list (string * Z) :=
  dict_set name (default 0 (dict_get name co_counts) + 1) co_counts.

(** One iteration of [for a in ...]: [a] is an author object. *)
Definition count_author (a : json) (co_counts : list (string * Z))
  : outcome (list (string * Z)) :=
  match a with
  | JObj fields =>
      let name :=
        py_or (py_or (default JNull (dict_get "name" fields))
                     (default JNull (dict_get "authorName" fields))) JNull in
      if negb (truthy name) then Return co_counts
      else match name with
           | JStr s => Return (count_name s co_counts)
           | JArr _ | JObj _ => Raise TypeError
           | _ => Raise Unmodelled
           end
  | _ => Raise AttributeError
  end.

Fixpoint count_authors (authors : list json) (co_counts : list (string * Z))
  : outcome (list (string * Z)) :=
  match authors with
  | [] => Return co_counts
  | a :: authors' =>
      match count_author a co_counts with
      | Return co_counts' => count_authors authors' co_counts'
      | Raise e => Raise e
      end
  end.

(** One iteration of [for p in papers]:
    [for a in p.get('authors', []) or []: ...] *)
Definition count_paper (p : json) (co_counts : list (string * Z))
  : outcome (list (string * Z)) :=
  match p with
  | JObj fields =>
      match py_or (default (JArr []) (dict_get "authors" fields)) (JArr []) with
      | JArr authors => count_authors authors co_counts
      | JObj [] | JStr EmptyString => Return co_counts
      | JObj _ | JStr _ => Raise AttributeError
      | _ => Raise TypeError
      end
  | _ => Raise AttributeError
  end.

Fixpoint count_papers (papers : list json) (co_counts : list (string * Z))
  : outcome (list (string * Z)) :=
  match papers with
  | [] => Return co_counts
  | p :: papers' =>
      match count_paper p co_counts with
      | Return co_counts' => count_papers papers' co_counts'
      | Raise e => Raise e
      end
  end.

(** [papers = j.get('data', []) if isinstance(j, dict) else []] followed
    by the two nested loops. *)
Definition coauthor_counts (j : json) : outcome (list (string * Z)) :=
  let papers :=
    match j with
    | JObj fields => default (JArr []) (dict_get "data" fields)
    | _ => JArr []
    end in
  match papers with
  | JArr ps => count_papers ps []
  | JObj [] | JStr EmptyString => Return []
  | JObj _ | JStr _ => Raise AttributeError
  | _ => Raise TypeError
  end.

Definition counts_json (co_counts : list (string * Z)) : json :=
  JObj (List.map (λ kv, (kv.1, JNum kv.2)) co_counts).

Definition coauthors_key (author_id : option string) : string :=
  "coauthors::" +:+ id_str author_id.

Definition papers_url (author_id : option string) (max_papers : Z) : string :=
  SS_BASE +:+ "/author/" +:+ id_str author_id +:+
  "/papers?fields=title,authors&limit=" +:+ pretty max_papers.

Definition ss_get_author_coauthors (author_id : option string)
    (api_key : option string) (max_papers : Z) (base_delay : seconds)
  : M json :=
  if id_missing author_id then ret (JObj [])
  else
    c ← get_cache;
    match c !! coauthors_key author_id with
    | Some v => ret v
    | None =>
        r ← safe_get (papers_url author_id max_papers) (api_headers api_key)
              base_delay 6;
        match r with
        | None => ret (JObj [])
        | Some r =>
            if negb (status_code r =? 200) then ret (JObj [])
            else match json_body r with
                 | None => ret (JObj [])
                 | Some j =>
                     co_counts ← lift (coauthor_counts j);
                     cache_store (coauthors_key author_id) (counts_json co_counts);;
                     save_cache;;
                     ret (counts_json co_counts)
                 end
        end
    end.
End SsUtils.

(** ** [list.sort(key=..., reverse=...)] *)

(** [list.sort] computes the key of every element first, sorts with [<] on
    the keys only, and is stable; with [reverse=True] it reverses the list,
    sorts it the same way and reverses the result, so that elements with
    equal keys keep their order in both directions.  For keys on which [<]
    is a strict weak order this fixes the result; [stable_sort] is the
    insertion sort that computes it. *)
Section PySort.
Context {A K : Type} (lt : K → K → bool).

Fixpoint insert_by (x : K * A) (l : list (K * A)) : list (K * A) :=
  match l with
  | [] => [x]
  | y :: l' => if lt y.1 x.1 then y :: insert_by x l' else x :: y :: l'
  end.

Definition stable_sort (l : list (K * A)) : list (K * A) :=
  foldr insert_by [] l.

Definition sort_decorated (reverse : bool) (l : list (K * A)) : list (K * A) :=
  if reverse then rev (stable_sort (rev l)) else stable_sort l.

(** The keys, in list order; the first key that raises ends the sort. *)
Fixpoint decorate (key : A → outcome K) (l : list A) : outcome (list (K * A)) :=
  match l with
  | [] => Return []
  | x :: l' =>
      match key x with
      | Raise e => Raise e
      | Return k =>
          match decorate key l' with
          | Raise e => Raise e
          | Return kl => Return ((k, x) :: kl)
          end
      end
  end.

Definition py_sort (key : A → outcome K) (reverse : bool) (l : list A)
  : outcome (list A) :=
  match decorate key l with
  | Raise e => Raise e
  | Return kl => Return (List.map snd (sort_decorated reverse kl))
  end.

(** [x] has a strictly smaller key than [y]. *)
Definition before (x y : K * A) : Prop := lt x.1 y.1 = true.

(** No two positions of [l] hold equal keys: any two are strictly
    ordered, one way or the other. *)
Definition untied (l : list (K * A)) : Prop :=
  ∀ i j x y, i ≠ j → l !! i = Some x → l !! j = Some y →
             before x y ∨ before y x.
End PySort.

(** ** [hindex_gui_v3.1.1.py]: the model behind the tables *)

(** A sort key: a float, a [str], an [int] or a [set] of [str]. *)
Inductive key : Type :=
| KFloat (f : pyfloat)
| KStr (s : string)
| KInt (n : Z)
| KSet (s : gset string).

(** [a < b] on keys.  Within one sort all keys come from the same column
    and have the same kind; [<] on sets is proper inclusion. *)
Definition key_lt (a b : key) : bool :=
  match a, b with
  | KFloat x, KFloat y => float_lt x y
  | KStr x, KStr y => String.ltb x y
  | KInt x, KInt y => x <? y
  | KSet x, KSet y => bool_decide (x ⊂ y)
  | _, _ => false
  end.

(** ** Sort keys without ties *)

(** Any two of the keys are strictly ordered, one way or the other. *)
Fixpoint no_ties (ks : list key) : bool :=
  match ks with
  | [] => true
  | k :: ks' => forallb (λ k', key_lt k k' || key_lt k' k) ks' && no_ties ks'
  end.

(** An entry of [self.rows].  [zotero_name] is a [str] and [flagged] a
    [bool]; the Semantic Scholar fields hold whatever the lookups returned;
    [coauthors_list] is [None] or a [dict] from names to integer counts. *)
Record Row : Type := mkRow {
  zotero_name : string;
  ss_name : json;
  hindex : json;
  papers : json;
  ss_id : json;
  coauthors_list : option (list (string * Z));
  flagged : bool
}.

(** The columns of the Authors table. *)
Inductive column : Type :=
| col_zotero_name
| col_ss_name
| col_hindex
| col_papers
| col_ss_id
| col_coauthors_preview.

(** [r.get(col)]; a row has no key ['coauthors_preview']. *)
Definition row_get (c : column) (r : Row) : json :=
  match c with
  | col_zotero_name => JStr (zotero_name r)
  | col_ss_name => ss_name r
  | col_hindex => hindex r
  | col_papers => papers r
  | col_ss_id => ss_id r
  | col_coauthors_preview => JNull
  end.

(** A value of [self.co_index]: the metadata of one coauthor.  The text
    fields are the [str] values [build_coauthor_index] creates them with. *)
Record Entry : Type := mkEntry {
  count : Z;
  mains : gset string;
  co_ss_name : string;
  co_hindex : json;
  co_papers : json;
  co_ss_id : string;
  co_flagged : bool
}.

(** The columns of the Co-authors table. *)
Inductive co_column : Type :=
| ccol_coauthor_name
| ccol_ss_name
| ccol_hindex
| ccol_papers
| ccol_ss_id
| ccol_mains
| ccol_count.

Section Gui.
Context `{PyRuntime}.

(** [float(v)]; [None] when it raises. *)
Definition py_float (v : json) : option pyfloat :=
  match v with
  | JNum n => float_of_int n
  | JBool b => float_of_int (if b then 1 else 0)
  | JStr s => float_of_str s
  | JNull | JArr _ | JObj _ => None
  end.

(** [v in (None, "")] *)
Definition is_blank (v : json) : bool :=
  match v with
  | JNull => true
  | JStr s => String.eqb s ""
  | _ => false
  end.

(** [(v or '').lower()] *)
Definition lower_text (v : json) : outcome key :=
  match py_or v (JStr "") with
  | JStr s => Return (KStr (str_lower s))
  | _ => Raise AttributeError
  end.

(** [sort_key] of [refresh_tree]. *)
Definition sort_key (col : option column) (r : Row) : outcome key :=
  let val := match col with
             | Some c => row_get c r
             | None => row_get col_zotero_name r
             end in
  match col with
  | Some col_hindex | Some col_papers =>
      Return (KFloat (if is_blank val then FNegInf
                      else default FNegInf (py_float val)))
  | _ => lower_text val
  end.

(** The sort keys of the rows [l] for column [col] are pairwise distinct
    (and none of them raises). *)
Definition no_tied_keys (col : option column) (l : list Row) : bool :=
  match decorate (sort_key col) l with
  | Return kl => no_ties kl.*1
  | Raise _ => false
  end.

(** The list [ordered] of [refresh_tree]: the flagged rows, then the
    others, each part sorted by the current column and direction, or by
    name when no column was chosen. *)
Definition refresh_tree_order (rows : list Row)
    (current_sort : option column * bool) : outcome (list Row) :=
  let '(col, desc) := current_sort in
  let flagged_rows := List.filter flagged rows in
  let others := List.filter (λ r, negb (flagged r)) rows in
  let by_name := λ r, lower_text (JStr (zotero_name r)) in
  match col with
  | Some _ =>
      match py_sort key_lt (sort_key col) desc flagged_rows with
      | Raise e => Raise e
      | Return fs =>
          match py_sort key_lt (sort_key col) desc others with
          | Raise e => Raise e
          | Return os => Return (fs ++ os)
          end
      end
  | None =>
      match py_sort key_lt by_name false flagged_rows with
      | Raise e => Raise e
      | Return fs =>
          match py_sort key_lt by_name false others with
          | Raise e => Raise e
          | Return os => Return (fs ++ os)
          end
      end
  end.

(** The Authors table: the model rows, the sort state, the rows shown (in
    display order) and, per column, the [descending] argument its heading
    passes to [sort_by] at the next click. *)
Record Authors : Type := mkAuthors {
  rows : list Row;
  current_sort : option column * bool;
  tree : list Row;
  heading : column → bool
}.

(** [refresh_tree]: the table is emptied, then refilled in order. *)
Definition refresh_tree (a : Authors) : outcome unit * Authors :=
  match refresh_tree_order (rows a) (current_sort a) with
  | Raise e =>
      (Raise e, {| rows := rows a; current_sort := current_sort a;
                   tree := []; heading := heading a |})
  | Return ordered =>
      (Return (), {| rows := rows a; current_sort := current_sort a;
                     tree := ordered; heading := heading a |})
  end.

Definition column_eqb (c d : column) : bool :=
  match c, d with
  | col_zotero_name, col_zotero_name | col_ss_name, col_ss_name
  | col_hindex, col_hindex | col_papers, col_papers
  | col_ss_id, col_ss_id | col_coauthors_preview, col_coauthors_preview => true
  | _, _ => false
  end.

(** [sort_by(col, descending)]: sort, then make the heading of [col]
    call [sort_by(col, not descending)]. *)
Definition sort_by (col : column) (descending : bool) (a : Authors)
  : outcome unit * Authors :=
  let a1 := {| rows := rows a; current_sort := (Some col, descending);
               tree := tree a; heading := heading a |} in
  match refresh_tree a1 with
  | (Raise e, a2) => (Raise e, a2)
  | (Return _, a2) =>
      (Return (),
       {| rows := rows a2; current_sort := current_sort a2; tree := tree a2;
          heading := λ c, if column_eqb c col then negb descending
                          else heading a2 c |})
  end.

(** A click on the heading of [col]. *)
Definition click_heading (col : column) (a : Authors) : outcome unit * Authors :=
  sort_by col (heading a col) a.

(** The entry a coauthor starts from in [build_coauthor_index]. *)
Definition new_entry : Entry :=
  {| count := 0; mains := ∅; co_ss_name := ""; co_hindex := JStr "";
     co_papers := JStr ""; co_ss_id := ""; co_flagged := false |}.

(** [(r.get('coauthors_list') or {}).items()] *)
Definition coauthor_items (r : Row) : list (string * Z) :=
  default [] (coauthors_list r).

(** [co_name == v] for a [str] [co_name]. *)
Definition str_equals (co_name : string) (v : json) : bool :=
  match v with
  | JStr s => String.eqb co_name s
  | _ => false
  end.

(** [entry['count'] += cnt; entry['mains'].add(main)] *)
Definition credit (cnt : Z) (main : string) (entry : Entry) : Entry :=
  {| count := count entry + cnt;
     mains := mains entry ∪ {[ main ]};
     co_ss_name := co_ss_name entry; co_hindex := co_hindex entry;
     co_papers := co_papers entry; co_ss_id := co_ss_id entry;
     co_flagged := co_flagged entry |}.

(** The body of the inner loop of [build_coauthor_index]. *)
Definition add_coauthor (r : Row) (co_index : list (string * Entry))
    (item : string * Z) : list (string * Entry) :=
  let '(co_name, cnt) := item in
  if String.eqb co_name "" then co_index
  else if str_equals co_name (ss_name r) then co_index
  else
    let entry := default new_entry (dict_get co_name co_index) in
    dict_set co_name (credit cnt (zotero_name r) entry) co_index.

(** The first loop of [build_coauthor_index], from [self.co_index = {}]. *)
Definition aggregate (rows : list Row) : list (string * Entry) :=
  foldl (λ co_index r, foldl (add_coauthor r) co_index (coauthor_items r))
        [] rows.

(** An item of the coauthor map of [r] that the loop credits to [name]:
    it bears that name, the name is not empty and is not the row's own
    [ss_name]. *)
Definition counts_towards (name : string) (r : Row) (item : string * Z) : bool :=
  String.eqb item.1 name && negb (String.eqb item.1 "")
  && negb (str_equals item.1 (ss_name r)).

(** The counts credited to [name], each with the main author it comes
    from, in the order of the two loops. *)
Definition contributions (name : string) (rows : list Row) : list (Z * string) :=
  rows ≫= λ r, coauthor_items r ≫= λ item,
    if counts_towards name r item then [(item.2, zotero_name r)] else [].

(** The entry that sums the counts and collects the main authors. *)
Definition entry_of (cs : list (Z * string)) : option Entry :=
  match cs with
  | [] => None
  | _ =>
      Some {| count := foldr Z.add 0 cs.*1;
              mains := list_to_set cs.*2;
              co_ss_name := ""; co_hindex := JStr "";
              co_papers := JStr ""; co_ss_id := ""; co_flagged := false |}
  end.

(** [credit], from the entry looked up or from a new one. *)
Definition credit_to (o : option Entry) (c : Z * string) : option Entry :=
  Some (credit c.1 c.2 (default new_entry o)).

(** The aggregate in the words of the specification: the running total
    and the contributor set of [name]. *)
Definition expected_entry (name : string) (rows : list Row) : option Entry :=
  entry_of (contributions name rows).

(** [co_sort_key]; the [int] [-1] of the exception branch compares as the
    float [-1.0]. *)
Definition co_sort_key (col : option co_column) (item : string * Entry) : key :=
  let '(name, meta) := item in
  let num := λ v : json,
    KFloat (default (FFin (-1 # 1))
              (py_float (if is_blank v then JNum (-1) else v))) in
  match col with
  | Some ccol_hindex => num (co_hindex meta)
  | Some ccol_papers => num (co_papers meta)
  | Some ccol_ss_name => KStr (str_lower (co_ss_name meta))
  | Some ccol_ss_id => KStr (str_lower (co_ss_id meta))
  | Some ccol_coauthor_name => KStr (str_lower "")
  | Some ccol_mains => KSet (mains meta)
  | Some ccol_count => KInt (count meta)
  | None => KStr (str_lower name)
  end.

(** The list [ordered] of [build_coauthor_index]. *)
Definition co_order (current_co_sort : option co_column * bool)
    (items : list (string * Entry)) : list (string * Entry) :=
  let '(col, desc) := current_co_sort in
  let flagged_items := List.filter (λ it, co_flagged it.2) items in
  let other_items := List.filter (λ it, negb (co_flagged it.2)) items in
  let sorted := λ (reverse : bool) (k : string * Entry → key) l,
    List.map snd (sort_decorated key_lt reverse (List.map (λ it, (k it, it)) l)) in
  match col with
  | Some _ =>
      sorted desc (co_sort_key col) flagged_items ++
      sorted desc (co_sort_key col) other_items
  | None =>
      sorted false (λ it, KStr (str_lower it.1)) flagged_items ++
      sorted false (λ it, KStr (str_lower it.1)) other_items
  end.

(** The Co-authors table: the index and the items shown, in order. *)
Record CoAuthors : Type := mkCoAuthors {
  co_index : list (string * Entry);
  ctree : list (string * Entry)
}.

(** [build_coauthor_index]: the index is rebuilt from the rows, whatever
    it held before, then shown in order. *)
Definition build_coauthor_index (rows : list Row)
    (current_co_sort : option co_column * bool) (old : CoAuthors) : CoAuthors :=
  let idx := aggregate rows in
  {| co_index := idx; ctree := co_order current_co_sort idx |}.
End Gui.

(** ** A reference runtime

    An instance of [PyRuntime] to run the model on examples.  It agrees
    with CPython on ASCII text: [ref_lower] and [ref_strip] leave non-ASCII
    bytes alone, [ref_float_of_str] reads plain decimal integers only, and
    delays are exact rationals. *)

Definition ref_lower_char (c : ascii) : ascii :=
  let n := N_of_ascii c in
  if ((65 <=? n) && (n <=? 90))%N then ascii_of_N (n + 32) else c.

Fixpoint ref_lower (s : string) : string :=
  match s with
  | EmptyString => EmptyString
  | String c s' => String (ref_lower_char c) (ref_lower s')
  end.

Definition ref_is_space (c : ascii) : bool :=
  let n := N_of_ascii c in
  (((9 <=? n) && (n <=? 13)) || ((28 <=? n) && (n <=? 32)))%N.

Fixpoint ref_lstrip (cs : list ascii) : list ascii :=
  match cs with
  | c :: cs' => if ref_is_space c then ref_lstrip cs' else cs
  | [] => []
  end.

Definition ref_strip (s : string) : string :=
  string_of_list_ascii
    (rev (ref_lstrip (rev (ref_lstrip (list_ascii_of_string s))))).

Definition ref_hex_digit (n : N) : ascii :=
  if (n <? 10)%N then ascii_of_N (48 + n) else ascii_of_N (55 + n).

Definition ref_is_unreserved (c : ascii) : bool :=
  let n := N_of_ascii c in
  (((48 <=? n) && (n <=? 57)) || ((65 <=? n) && (n <=? 90)) ||
   ((97 <=? n) && (n <=? 122)) ||
   (n =? 45) || (n =? 46) || (n =? 95) || (n =? 126))%N.

Fixpoint ref_quote_plus (s : string) : string :=
  match s with
  | EmptyString => EmptyString
  | String c s' =>
      let n := N_of_ascii c in
      if ref_is_unreserved c then String c (ref_quote_plus s')
      else if (n =? 32)%N then String "+" (ref_quote_plus s')
      else String "%" (String (ref_hex_digit (n / 16))
                         (String (ref_hex_digit (n mod 16)) (ref_quote_plus s')))
  end.

Fixpoint ref_digits (acc : Z) (s : string) : option Z :=
  match s with
  | EmptyString => Some acc
  | String c s' =>
      let n := N_of_ascii c in
      if ((48 <=? n) && (n <=? 57))%N
      then ref_digits (10 * acc + Z.of_N (n - 48)) s'
      else None
  end.

Definition ref_float_of_str (s : string) : option pyfloat :=
  match s with
  | EmptyString => None
  | String "-" (String c s') =>
      (λ n, FFin (inject_Z (- n))) <$> ref_digits 0 (String c s')
  | _ => (λ n, FFin (inject_Z n)) <$> ref_digits 0 s
  end.

Definition ref_runtime : PyRuntime :=
  {| str_lower := ref_lower;
     str_strip := ref_strip;
     quote_plus := ref_quote_plus;
     float_of_str := ref_float_of_str;
     float_of_int := λ n, Some (FFin (inject_Z n));
     seconds := Q;
     sec_of_int := inject_Z;
     sec_one := 1%Q;
     sec_mul := Qmult;
     sec_add := Qplus |}.

(** ** Example data

    The end-to-end example of the specification and the mock transports of
    its testable properties, on the reference runtime. *)

Definition ex_world : @World ref_runtime :=
  @mkWorld ref_runtime ∅ None [] [].

Definition ex_found : Response :=
  mkResponse 200 ""
    (Some (JObj [("data",
       JArr [JObj [("authorId", JStr "A1"); ("name", JStr "Ada Lovelace")]])])).

Definition ex_status (status : Z) : Response := mkResponse status "" None.

Definition ex_unsupported (field : string) : Response :=
  mkResponse 400 ("Unrecognized or unsupported fields: [" +:+ field +:+ "]") None.

Definition ex_details : Response :=
  mkResponse 200 ""
    (Some (JObj [("name", JStr "Ada Lovelace"); ("hIndex", JNum 7);
                 ("paperCount", JNum 12)])).

(** A transport that gives the same answer to every request. *)
Definition ex_always (reply : Reply) : Transport := λ _ _, reply.

(** The base delay of the examples: three seconds. *)
Definition ex_base : @seconds ref_runtime := (3 # 1)%Q.

(** The service finds the author at once. *)
Definition ex_finds : Transport := ex_always (Answer ex_found).

Definition ex_top : json :=
  JObj [("authorId", JStr "A1"); ("name", JStr "Ada Lovelace")].

(** The world after the fetch of that search. *)
Definition ex_fetched : @World ref_runtime :=
  (safe_get (H:=ref_runtime) ex_finds
     (search_url (H:=ref_runtime) "Ada Lovelace") [] ex_base 6 ex_world).2.


(** The service rejects the first request for its [aliases] field and
    answers the next one. *)
Definition ex_rejects_aliases : Transport :=
  λ hist _, match hist with
            | [] => Answer (ex_unsupported "aliases")
            | _ => Answer ex_details
            end.

Definition ex_ada : Row :=
  {| zotero_name := "Ada Lovelace"; ss_name := JStr "Ada Lovelace";
     hindex := JNum 7; papers := JNum 12; ss_id := JStr "A1";
     coauthors_list := Some [("Charles Babbage", 2)]; flagged := false |}.

Definition ex_alan : Row :=
  {| zotero_name := "Alan Turing"; ss_name := JStr "Alan Turing";
     hindex := JNum 9; papers := JNum 30; ss_id := JStr "A2";
     coauthors_list := Some [("Charles Babbage", 1); ("Alonzo Church", 3)];
     flagged := true |}.

Definition ex_grace : Row :=
  {| zotero_name := "Grace Hopper"; ss_name := JNull;
     hindex := JStr ""; papers := JStr ""; ss_id := JStr "";
     coauthors_list := None; flagged := false |}.

(** Two rows with the same h-index. *)
Definition ex_emmy : Row :=
  {| zotero_name := "Emmy Noether"; ss_name := JStr "Emmy Noether";
     hindex := JNum 7; papers := JNum 40; ss_id := JStr "A3";
     coauthors_list := None; flagged := false |}.

(** A row whose coauthor map has an entry with an empty name. *)
Definition ex_blank_coauthor : Row :=
  {| zotero_name := "Ada Lovelace"; ss_name := JStr "Ada Lovelace";
     hindex := JNum 7; papers := JNum 12; ss_id := JStr "A1";
     coauthors_list := Some [("", 2)]; flagged := false |}.

Definition ex_authors (rows : list Row) : Authors :=
  {| rows := rows; current_sort := (None, false); tree := [];
     heading := λ _, false |}.

Definition ex_babbage : Entry :=
  {| count := 3; mains := {[ "Ada Lovelace"; "Alan Turing" ]};
     co_ss_name := ""; co_hindex := JStr ""; co_papers := JStr "";
     co_ss_id := ""; co_flagged := true |}.

Definition ex_church : Entry :=
  {| count := 3; mains := {[ "Alan Turing" ]};
     co_ss_name := ""; co_hindex := JStr ""; co_papers := JStr "";
     co_ss_id := ""; co_flagged := false |}.

(** A 500, then the connection fails. *)
Definition ex_drops : Transport :=
  λ hist _, match hist with
            | [] => Answer (ex_status 500)
            | _ => NetworkException
            end.

(** The papers of Ada Lovelace: two with Charles Babbage, one of them
    with Luigi Menabrea as well. *)
Definition ex_papers_body : json :=
  JObj [("data", JArr [
    JObj [("title", JStr "Notes");
          ("authors", JArr [JObj [("authorId", JStr "A1");
                                  ("name", JStr "Ada Lovelace")];
                            JObj [("name", JStr "Charles Babbage")]])];
    JObj [("authors", JArr [JObj [("name", JStr "Charles Babbage")];
                            JObj [("name", JStr "Luigi Menabrea")]])]])].

Definition ex_papers : Response := mkResponse 200 "" (Some ex_papers_body).

Definition ex_paper_authors : list (list string) :=
  [["Ada Lovelace"; "Charles Babbage"]; ["Charles Babbage"; "Luigi Menabrea"]].

Definition ex_counts : list (string * Z) :=
  [("Ada Lovelace", 1); ("Charles Babbage", 2); ("Luigi Menabrea", 1)].

(** A 200 whose body is a JSON list. *)
Definition ex_list_body : Response := mkResponse 200 "" (Some (JArr [])).

(** A row that was never looked up. *)
Definition ex_mary : Row :=
  {| zotero_name := "Mary Somerville"; ss_name := JNull;
     hindex := JNull; papers := JNull; ss_id := JNull;
     coauthors_list := None; flagged := false |}.

(** ** The backoff policy in the words of the specification *)

Section BackoffSpec.
Context `{PyRuntime}.

(** The sleep that follows a response with status [status] at attempt
    index [a]: [baseDelay * 2^a + 1.0] after a 429, [baseDelay * 2^a]
    after a 500, 502, 503 or 504, none after any other status. *)
Definition spec_backoff_wait (base_delay : seconds) (a : Z) (status : Z)
  : option seconds :=
  if status =? 429 then
    Some (sec_add (sec_mul base_delay (sec_of_int (2 ^ a))) sec_one)
  else if (status =? 500) || (status =? 502) || (status =? 503) || (status =? 504)
  then Some (sec_mul base_delay (sec_of_int (2 ^ a)))
  else None.

(** The sleeps of a run whose attempts [a], [a + 1], ... were answered
    with [statuses]. *)
Fixpoint spec_schedule (base_delay : seconds) (a : Z) (statuses : list Z)
  : list seconds :=
  match statuses with
  | [] => []
  | s :: statuses' =>
      match spec_backoff_wait base_delay a s with
      | Some wait => wait :: spec_schedule base_delay (a + 1) statuses'
      | None => []
      end
  end.
End BackoffSpec.

(** ** Order and ties of sorted lists *)

Section PySortSpec.
Context {A K : Type} (lt : K → K → bool).

(** [y] may follow [x] in ascending order: its key is not smaller. *)
Definition not_after (x y : K * A) : Prop := lt y.1 x.1 = false.

(** The key of [x] equals [k]: neither is smaller than the other. *)
Definition tied (k : K) (x : K * A) : bool :=
  negb (lt k x.1) && negb (lt x.1 k).
End PySortSpec.

(** Keys on which [<] is a total preorder: texts, or floats other than
    NaN. *)
Definition text_key (k : key) : Prop := ∃ s, k = KStr s.
Definition number_key (k : key) : Prop := ∃ f, k = KFloat f ∧ f ≠ FNaN.

(** The keys of a column of the Authors table: numbers for the h-index
    and the paper count, texts for the others. *)
Definition column_key (col : option column) (k : key) : Prop :=
  match col with
  | Some col_hindex | Some col_papers => number_key k
  | _ => text_key k
  end.

(** The key of [x] equals [k]: neither is smaller than the other. *)
Definition tied_by {A} (key_of : A → outcome key) (k : key) (x : A) : bool :=
  match key_of x with
  | Return k' => tied (A:=A) key_lt k (k', x)
  | Raise _ => false
  end.

Section GuiSpec.
Context `{PyRuntime}.

(** The sort key of the row [r] for [col] equals [k]. *)
Definition tied_row (col : option column) (k : key) (r : Row) : bool :=
  tied_by (sort_key col) k r.

(** No row of [rows] has the sort key NaN. *)
Definition comparable_keys (col : option column) (rows : list Row) : Prop :=
  Forall (λ r, sort_key col r ≠ Return (KFloat FNaN)) rows.

(** The direction [refresh_tree] sorts with: the one chosen with the
    column, ascending when no column was chosen. *)
Definition sort_direction (current_sort : option column * bool) : bool :=
  match current_sort.1 with
  | Some _ => current_sort.2
  | None => false
  end.

(** An entry as [build_coauthor_index] creates it: not flagged, its
    Semantic Scholar fields blank. *)
Definition fresh_entry (e : Entry) : Prop :=
  co_flagged e = false ∧ co_ss_name e = "" ∧ co_hindex e = JStr "" ∧
  co_papers e = JStr "" ∧ co_ss_id e = "".
End GuiSpec.

(** ** What a lookup may do to the cache *)

Section LookupSpec.
Context `{PyRuntime}.

(** Between [w] and [w'] the cache and its file were left alone, or the
    one key [key], absent before, was added and the cache written out. *)
Definition lookup_effect (key : string) (w w' : World) : Prop :=
  (cache w' = cache w ∧ cache_file w' = cache_file w) ∨
  (cache w !! key = None ∧
   ∃ v, cache w' = <[key := v]> (cache w) ∧ cache_file w' = Some (cache w')).
End LookupSpec.

(** ** The shape of a papers payload *)

(** [a] is an author object whose ['name'] is the text [n]. *)
Definition author_named (n : string) (a : json) : Prop :=
  ∃ fields, a = JObj fields ∧ dict_get "name" fields = Some (JStr n).

(** [p] is a paper object whose ['authors'] list bears the names [ns]. *)
Definition paper_by (ns : list string) (p : json) : Prop :=
  ∃ fields authors,
    p = JObj fields ∧ dict_get "authors" fields = Some (JArr authors) ∧
    Forall2 author_named ns authors.

(** [j] is an answer of the papers endpoint: an object whose ['data'] lists
    papers by the authors [nss]. *)
Definition papers_payload (nss : list (list string)) (j : json) : Prop :=
  ∃ fields papers,
    j = JObj fields ∧ dict_get "data" fields = Some (JArr papers) ∧
    Forall2 paper_by nss papers.

(** The number of author entries that bear [name]. *)
Definition occurrences (name : string) (nss : list (list string)) : nat :=
  length (List.filter (String.eqb name) (concat nss)).

(** * Properties of [ss_utils.py] *)

Section SsUtilsFacts.
Context `{PyRuntime} (transport : Transport).

Implicit Types (w : World) (u : string) (hs : list (string * string)).

Lemma world_eta w :
  {| cache := cache w; cache_file := cache_file w;
     net_log := net_log w; sleep_log := sleep_log w |} = w.
Proof. by destruct w. Qed.

(** The loop stops after the request just issued. *)
Local Ltac frame_stop :=
  simpl; repeat split;
  [ exists 1%nat; simpl; repeat split; auto with lia
  | exists []; by rewrite app_nil_r ].

(** The loop sleeps and goes on: the induction hypothesis applies. *)
Local Ltac frame_go IH :=
  match goal with
  | |- context [safe_get_loop _ _ ?a ?l ?u ?hs ?base ?w1] =>
      let k := fresh "k" in let ws := fresh "ws" in
      let Hn := fresh "Hn" in let Hs := fresh "Hs" in
      destruct (IH a l u hs base w1) as (? & ? & (k & ? & _ & Hn) & (ws & Hs));
      simpl in *; repeat split;
      [ done | done
      | exists (S k); repeat split; [lia | lia | by rewrite Hn, <- app_assoc]
      | eexists (_ :: ws); by rewrite Hs, <- app_assoc ]
  end.

(** [safe_get] touches neither the cache nor the file; it only appends
    requests for its own URL and sleeps. *)
Lemma safe_get_loop_frame remaining : ∀ attempt last_resp u hs base w,
  let w' := (safe_get_loop transport remaining attempt last_resp u hs base w).2 in
  cache w' = cache w ∧ cache_file w' = cache_file w ∧
  (∃ k, (k ≤ remaining)%nat ∧ (remaining ≠ 0%nat → k ≠ 0%nat) ∧
        net_log w' = net_log w ++ replicate k (mkRequest u hs)) ∧
  (∃ ws, sleep_log w' = sleep_log w ++ ws).
Proof.
  induction remaining as [|n IH]; intros attempt last_resp u hs base w;
    cbn [safe_get_loop].
  - simpl. repeat split;
      [exists 0%nat; simpl; rewrite app_nil_r; auto | exists []; by rewrite app_nil_r].
  - unfold requests_get.
    destruct (transport (net_log w) (mkRequest u hs)) as [|resp]; [frame_stop|].
    destruct (status_code resp =? 200); [frame_stop|].
    destruct (status_code resp =? 429); [frame_go IH|].
    destruct (existsb _ _); [frame_go IH | frame_stop].
Qed.

(** The status tests of [safe_get] are those of the specified policy. *)
Lemma spec_backoff_wait_cases base a status wait :
  spec_backoff_wait base a status = Some wait →
  (status =? 200) = false ∧
  ((status =? 429) = true ∧
     wait = sec_add (sec_mul base (sec_of_int (2 ^ a))) sec_one
   ∨ (status =? 429) = false ∧
     existsb (Z.eqb status) [500; 502; 503; 504] = true ∧
     wait = sec_mul base (sec_of_int (2 ^ a))).
Proof.
  unfold spec_backoff_wait. simpl existsb. rewrite orb_false_r, !orb_assoc.
  destruct (status =? 429) eqn:E429.
  - intros [= <-]. split; [|by left].
    apply Z.eqb_eq in E429. subst. done.
  - destruct (_ || _) eqn:E5; [|done].
    intros [= <-]. split; [|right; done].
    destruct (status =? 200) eqn:E200; [|done].
    apply Z.eqb_eq in E200. subst. done.
Qed.

(** A run of retried attempts: as long as the replies ask for a retry,
    [safe_get] issues the next request after the specified sleep. *)
Lemma safe_get_loop_retries (rs : list Response) :
  ∀ remaining attempt last_resp u hs base w,
  (length rs ≤ remaining)%nat →
  (∀ k r, rs !! k = Some r →
     transport (net_log w ++ replicate k (mkRequest u hs)) (mkRequest u hs)
       = Answer r ∧
     is_Some (spec_backoff_wait base (attempt + Z.of_nat k) (status_code r))) →
  safe_get_loop transport remaining attempt last_resp u hs base w =
  safe_get_loop transport (remaining - length rs)
    (attempt + Z.of_nat (length rs))
    (match last rs with Some r => Some r | None => last_resp end)
    u hs base
    {| cache := cache w; cache_file := cache_file w;
       net_log := net_log w ++ replicate (length rs) (mkRequest u hs);
       sleep_log := sleep_log w ++
                    spec_schedule base attempt (status_code <$> rs) |}.
Proof.
  induction rs as [|r rs IH];
    intros remaining attempt last_resp u hs base w Hlen Hrs.
  - simpl. rewrite Nat.sub_0_r, Z.add_0_r, !app_nil_r, world_eta. done.
  - destruct remaining as [|n]; [simpl in Hlen; lia|].
    destruct (Hrs 0%nat r eq_refl) as [Ht [wait Hwait]].
    simpl in Ht. rewrite app_nil_r in Ht.
    rewrite Z.add_0_r in Hwait.
    cbn [safe_get_loop]. unfold requests_get. rewrite Ht.
    destruct (spec_backoff_wait_cases _ _ _ _ Hwait) as [H200 Hcase].
    rewrite H200.
    assert (Hnext :
      safe_get_loop transport n (attempt + 1) (Some r) u hs base
        (time_sleep wait
           {| cache := cache w; cache_file := cache_file w;
              net_log := net_log w ++ [mkRequest u hs];
              sleep_log := sleep_log w |}) =
      safe_get_loop transport (S n - length (r :: rs))
        (attempt + Z.of_nat (length (r :: rs)))
        (match last (r :: rs) with Some r' => Some r' | None => last_resp end)
        u hs base
        {| cache := cache w; cache_file := cache_file w;
           net_log := net_log w ++ replicate (length (r :: rs)) (mkRequest u hs);
           sleep_log := sleep_log w ++
                        spec_schedule base attempt (status_code <$> (r :: rs)) |}).
    { rewrite (IH n (attempt + 1) (Some r) u hs base); cycle 1.
      - simpl in Hlen. lia.
      - intros k r' Hk. destruct (Hrs (S k) r' Hk) as [Ht' Hw'].
        split.
        + simpl. rewrite <- app_assoc. exact Ht'.
        + replace (attempt + 1 + Z.of_nat k) with (attempt + Z.of_nat (S k)) by lia.
          exact Hw'.
      - rewrite last_cons. simpl. rewrite Hwait. f_equal.
        + lia.
        + by destruct (last rs).
        + by rewrite <- !app_assoc. }
    destruct Hcase as [[H429 Hw]|(H429 & H5 & Hw)]; rewrite H429.
    + rewrite <- Hw. exact Hnext.
    + rewrite H5, <- Hw. exact Hnext.
Qed.




(** A cached search is answered from the cache: no request, no change. *)
Lemma search_hit name api_key base w v :
  cache w !! search_key name = Some v →
  ss_search_author transport name api_key base w = (Return v, w).
Proof.
  intros Hhit. unfold ss_search_author, mbind, M_bind, bind, get_cache.
  by rewrite Hhit.
Qed.

(** On a cache miss the search is the fetch followed by the inspection
    of its result. *)
Lemma search_miss name api_key base w :
  cache w !! search_key name = None →
  ss_search_author transport name api_key base w =
  match safe_get transport (search_url name) (api_headers api_key) base 6 w with
  | (Return (Some r), w1) =>
      if negb (status_code r =? 200) then (Return JNull, w1)
      else match json_body r with
           | None => (Return JNull, w1)
           | Some j =>
               match top_result j with
               | Return top =>
                   (Return top,
                    {| cache := <[search_key name := top]> (cache w1);
                       cache_file := Some (<[search_key name := top]> (cache w1));
                       net_log := net_log w1; sleep_log := sleep_log w1 |})
               | Raise e => (Raise e, w1)
               end
           end
  | (Return None, w1) => (Return JNull, w1)
  | (Raise e, w1) => (Raise e, w1)
  end.
Proof.
  intros Hmiss. unfold ss_search_author, mbind, M_bind, bind, get_cache.
  rewrite Hmiss.
  destruct (safe_get _ _ _ _ _ _) as [[[r|]|e] w1]; try done.
  destruct (negb _); [done|].
  destruct (json_body r) as [j|]; [|done].
  unfold lift. by destruct (top_result j).
Qed.

(** [safe_get] with a positive retry budget issues at least one request,
    and leaves the cache alone. *)
Lemma safe_get_requests u hs base w :
  ∃ o w1 extra,
    safe_get transport u hs base 6 w = (Return o, w1) ∧
    cache w1 = cache w ∧
    net_log w1 = net_log w ++ mkRequest u hs :: extra.
Proof.
  unfold safe_get. change (Z.to_nat 6) with 6%nat.
  destruct (safe_get_loop_frame 6 0 None u hs base w)
    as (Hc & _ & (k & _ & Hk & Hn) & _).
  destruct (safe_get_loop _ _ _ _ _ _ _ _) as [o w1]. simpl in *.
  exists o, w1. destruct k as [|k]; [by destruct Hk|].
  exists (replicate k (mkRequest u hs)). done.
Qed.

(** C1 (as amended) — Memoization of a completed search: when the name
    is not cached and the first call obtains a 200 response with a
    well-formed body, that call stores its result, the second call
    returns the identical value from the cache and leaves the world
    unchanged, so that the two calls together issue exactly the requests
    of the first call's single fetch: exactly one request when the
    transport answers it with the 200 straight away. *)
Theorem search_memoized name api_key base w r w1 j top :
  cache w !! search_key name = None →
  safe_get transport (search_url name) (api_headers api_key) base 6 w
    = (Return (Some r), w1) →
  status_code r = 200 →
  json_body r = Some j →
  top_result j = Return top →
  ∃ wa,
    ss_search_author transport name api_key base w = (Return top, wa) ∧
    cache wa !! search_key name = Some top ∧
    ss_search_author transport name api_key base wa = (Return top, wa) ∧
    net_log wa = net_log w1 ∧
    (∀ r0, transport (net_log w)
             (mkRequest (search_url name) (api_headers api_key)) = Answer r0 →
           status_code r0 = 200 →
           net_log wa =
             net_log w ++ [mkRequest (search_url name) (api_headers api_key)]).
Proof.
  intros Hmiss Hget H200 Hjson Htop.
  rewrite (search_miss _ _ _ _ Hmiss), Hget, H200, Hjson, Htop. simpl.
  eexists. split; [done|].
  assert (Hstored :
    cache {| cache := <[search_key name := top]> (cache w1);
             cache_file := Some (<[search_key name := top]> (cache w1));
             net_log := net_log w1; sleep_log := sleep_log w1 |}
      !! search_key name = Some top) by (simpl; apply lookup_insert_eq).
  split; [exact Hstored|]. split; [by apply search_hit|]. split; [done|].
  intros r0 Ht0 Hs0. simpl.
  unfold safe_get in Hget. change (Z.to_nat 6) with 6%nat in Hget.
  cbn [safe_get_loop] in Hget. unfold requests_get in Hget.
  rewrite Ht0, Hs0 in Hget. simpl in Hget. by injection Hget as _ <-.
Qed.

(** C2 (as amended) — What a search memoizes.  For a name that is not
    cached: when the fetch yields a 200 response with a well-formed body,
    one call stores the top result, or null when the result list is
    empty, under [search::<name>], and every later call that finds it
    there returns it without any request; when the fetch fails (network
    exception, non-200 status, unparsable body), the call returns null,
    stores nothing, and the next call queries the network again. *)
Theorem search_result_cached name api_key base w :
  cache w !! search_key name = None →
  (∀ r w1 j top,
     safe_get transport (search_url name) (api_headers api_key) base 6 w
       = (Return (Some r), w1) →
     status_code r = 200 → json_body r = Some j → top_result j = Return top →
     ∃ wa,
       ss_search_author transport name api_key base w = (Return top, wa) ∧
       cache wa = <[search_key name := top]> (cache w) ∧
       ∀ w2, cache w2 !! search_key name = Some top →
             ss_search_author transport name api_key base w2 = (Return top, w2))
  ∧ (∀ fields,
       default (JArr []) (dict_get "data" fields) = JArr [] →
       top_result (JObj fields) = Return JNull)
  ∧ (∀ o w1,
       safe_get transport (search_url name) (api_headers api_key) base 6 w
         = (Return o, w1) →
       (o = None ∨ ∃ r, o = Some r ∧ (status_code r ≠ 200 ∨ json_body r = None)) →
       ss_search_author transport name api_key base w = (Return JNull, w1) ∧
       cache w1 = cache w ∧
       ∃ o2 w2 extra,
         ss_search_author transport name api_key base w1 = (o2, w2) ∧
         net_log w2 = net_log w1 ++
           mkRequest (search_url name) (api_headers api_key) :: extra).
Proof.
  intros Hmiss. split; [|split].
  - intros r w1 j top Hget H200 Hjson Htop.
    rewrite (search_miss _ _ _ _ Hmiss), Hget, H200, Hjson, Htop. simpl.
    eexists. split; [done|]. split.
    + simpl. f_equal.
      destruct (safe_get_requests (search_url name) (api_headers api_key) base w)
        as (o' & w1' & extra & Hget' & Hc & _).
      rewrite Hget in Hget'. by injection Hget' as _ <-.
    + intros w2 Hhit. by apply search_hit.
  - intros fields Hdata. unfold top_result. by rewrite Hdata.
  - intros o w1 Hget Hfail.
    destruct (safe_get_requests (search_url name) (api_headers api_key) base w)
      as (o' & w1' & extra & Hget' & Hc & _).
    rewrite Hget in Hget'. injection Hget' as _ <-.
    assert (Hmiss1 : cache w1 !! search_key name = None) by by rewrite Hc.
    split; [|split; [done|]].
    + rewrite (search_miss _ _ _ _ Hmiss), Hget.
      destruct Hfail as [->|(r & -> & [Hs|Hj])]; [done| |].
      * destruct (status_code r =? 200) eqn:E; [|done].
        apply Z.eqb_eq in E. done.
      * destruct (negb _); [done|]. by rewrite Hj.
    + rewrite (search_miss _ _ _ _ Hmiss1).
      destruct (safe_get_requests (search_url name) (api_headers api_key) base w1)
        as (o2 & w2 & extra2 & -> & _ & Hn).
      destruct o2 as [r2|]; [|by eexists _, _, _].
      destruct (negb _); [by eexists _, _, _|].
      destruct (json_body r2) as [j2|]; [|by eexists _, _, _].
      destruct (top_result j2); by eexists _, _, _.
Qed.

(** C9 (as amended) — Fallback of the details lookup.  On a cache miss,
    when the fetch yields a non-200 response: if the status is 400, the
    body contains [Unrecognized or unsupported fields] and the requested
    field list contains [aliases], the lookup fetches exactly once more,
    with the [aliases] field removed from the list, and ends with the
    result of that second fetch (stored only if it is a 200 with a body
    that parses); otherwise it returns null.  No non-200 response ever
    writes to the cache. *)
Theorem details_aliases_fallback author_id api_key fields base w r w1 :
  id_missing author_id = false →
  cache w !! author_key author_id = None →
  safe_get transport (details_url author_id fields) (api_headers api_key)
    base 6 w = (Return (Some r), w1) →
  status_code r ≠ 200 →
  if aliases_fallback r fields then
    ∀ o2 w2,
      safe_get transport (details_url author_id (drop_aliases fields))
        (api_headers api_key) base 6 w1 = (Return o2, w2) →
      ss_get_author_details transport author_id api_key fields base w =
        details_outcome author_id (Return o2, w2) ∧
      (∀ r2, o2 = Some r2 → status_code r2 ≠ 200 →
         ss_get_author_details transport author_id api_key fields base w
           = (Return JNull, w2)) ∧
      cache w2 = cache w
  else
    ss_get_author_details transport author_id api_key fields base w
      = (Return JNull, w1) ∧
    cache w1 = cache w.
Proof.
  intros Hid Hmiss Hget Hne.
  assert (Hc1 : cache w1 = cache w).
  { destruct (safe_get_requests (details_url author_id fields)
                (api_headers api_key) base w) as (? & ? & ? & Hget' & Hc & _).
    rewrite Hget in Hget'. by injection Hget' as _ <-. }
  assert (H200 : (status_code r =? 200) = false).
  { destruct (status_code r =? 200) eqn:E; [apply Z.eqb_eq in E; done|done]. }
  unfold ss_get_author_details. rewrite Hid.
  unfold mbind, M_bind, bind, get_cache. rewrite Hmiss.
  cbn [details_loop]. unfold mbind, M_bind, bind. rewrite Hget, H200.
  destruct (aliases_fallback r fields); [|done].
  intros o2 w2 Hget2. rewrite Hget2.
  assert (Hc2 : cache w2 = cache w).
  { destruct (safe_get_requests (details_url author_id (drop_aliases fields))
                (api_headers api_key) base w1) as (? & ? & ? & Hget' & Hc & _).
    rewrite Hget2 in Hget'. injection Hget' as _ <-. congruence. }
  split; [|split; [|done]].
  - unfold details_outcome. destruct o2 as [r2|]; [|done].
    destruct (status_code r2 =? 200); [by destruct (json_body r2)|].
    by destruct (aliases_fallback _ _).
  - intros r2 -> Hne2.
    destruct (status_code r2 =? 200) eqn:E; [apply Z.eqb_eq in E; done|].
    by destruct (aliases_fallback _ _).
Qed.

(** C10 — Empty-id guard: with a [None] or empty author id,
    [ss_get_author_details] returns [None] and [ss_get_author_coauthors]
    returns the empty map at once; the world is unchanged, so that no
    request is issued and the cache is not touched. *)
Theorem empty_id_guard api_key fields max_papers base w :
  ss_get_author_details transport None api_key fields base w
    = (Return JNull, w) ∧
  ss_get_author_details transport (Some "") api_key fields base w
    = (Return JNull, w) ∧
  ss_get_author_coauthors transport None api_key max_papers base w
    = (Return (JObj []), w) ∧
  ss_get_author_coauthors transport (Some "") api_key max_papers base w
    = (Return (JObj []), w).
Proof. repeat split. Qed.
End SsUtilsFacts.

(** * Properties of the sort *)

Section PySortFacts.
Context {A K : Type} (lt : K → K → bool).

Implicit Types (l : list (K * A)) (x : K * A).

Lemma insert_by_Permutation x l : insert_by lt x l ≡ₚ x :: l.
Proof.
  induction l as [|y l IH]; simpl; [done|].
  destruct (lt y.1 x.1); [|done].
  rewrite IH. apply perm_swap.
Qed.

Lemma stable_sort_Permutation l : stable_sort lt l ≡ₚ l.
Proof.
  induction l as [|x l IH]; simpl; [done|].
  by rewrite insert_by_Permutation, IH.
Qed.

Lemma sort_decorated_Permutation reverse l :
  sort_decorated lt reverse l ≡ₚ l.
Proof.
  unfold sort_decorated. destruct reverse.
  - rewrite <- Permutation_rev, stable_sort_Permutation.
    symmetry. apply Permutation_rev.
  - apply stable_sort_Permutation.
Qed.

Lemma decorate_snd (key : A → outcome K) (xs : list A) : ∀ l,
  decorate key xs = Return l → l.*2 = xs.
Proof.
  induction xs as [|a xs IH]; simpl; intros l.
  - by intros [= <-].
  - destruct (key a) as [k|]; [|done].
    destruct (decorate key xs) as [l'|]; [|done].
    intros [= <-]. simpl. f_equal. by apply IH.
Qed.

Lemma py_sort_Permutation (key : A → outcome K) reverse (xs sorted : list A) :
  py_sort lt key reverse xs = Return sorted → sorted ≡ₚ xs.
Proof.
  unfold py_sort. destruct (decorate key xs) as [l|] eqn:Hdec; [|done].
  intros [= <-]. apply decorate_snd in Hdec. rewrite <- Hdec.
  change (List.map snd) with (fmap (M:=list) (@snd K A)).
  by rewrite sort_decorated_Permutation.
Qed.

(** With a transitive, asymmetric [<] and keys that are pairwise
    comparable the sorted list is determined by the elements alone. *)
Section Untied.
Hypothesis lt_trans : ∀ a b c, lt a b = true → lt b c = true → lt a c = true.
Hypothesis lt_asym : ∀ a b, lt a b = true → lt b a = true → False.

Lemma untied_cons x l :
  untied lt (x :: l) ↔
  Forall (λ y, before lt x y ∨ before lt y x) l ∧ untied lt l.
Proof.
  split.
  - intros Hu. split.
    + apply Forall_lookup. intros i y Hy.
      apply (Hu 0%nat (S i)); [lia|done|done].
    + intros i j a b Hij Ha Hb. apply (Hu (S i) (S j)); [lia|done|done].
  - intros [Hx Hu] i j a b Hij Ha Hb.
    rewrite Forall_lookup in Hx.
    destruct i as [|i], j as [|j]; simpl in *; simplify_eq.
    + by apply (Hx j).
    + destruct (Hx i a Ha); [by right|by left].
    + apply (Hu i j); [lia|done|done].
Qed.

Lemma untied_Permutation l1 l2 : l1 ≡ₚ l2 → untied lt l1 → untied lt l2.
Proof.
  induction 1 as [|x l1 l2 Hp IH|x y l|l1 l2 l3 _ IH1 _ IH2]; [done| | |auto].
  - rewrite !untied_cons. intros [Hx Hu]. split; [by rewrite <- Hp|auto].
  - rewrite !untied_cons, !Forall_cons. intros [[Hyx Hy] [Hx Hu]].
    repeat split; [tauto|done|done|done].
Qed.

Lemma insert_by_sorted x l :
  StronglySorted (before lt) l →
  Forall (λ y, before lt x y ∨ before lt y x) l →
  StronglySorted (before lt) (insert_by lt x l).
Proof.
  induction 1 as [|y l Hs IH Hy]; simpl; intros Hx.
  - repeat constructor.
  - apply Forall_cons in Hx as [Hxy Hx].
    destruct (lt y.1 x.1) eqn:Hlt.
    + constructor; [by apply IH|].
      rewrite insert_by_Permutation. by constructor.
    + assert (Hb : before lt x y).
      { destruct Hxy as [|Hyx]; [done|]. unfold before in Hyx. congruence. }
      constructor; [by constructor|].
      constructor; [done|].
      eapply Forall_impl; [exact Hy|]. intros z Hz. by eapply lt_trans.
Qed.

Lemma stable_sort_sorted l :
  untied lt l → StronglySorted (before lt) (stable_sort lt l).
Proof.
  induction l as [|x l IH]; simpl; [constructor|].
  rewrite untied_cons. intros [Hx Hu].
  apply insert_by_sorted; [by apply IH|].
  by rewrite stable_sort_Permutation.
Qed.

(** Without ties, sorting the reversed list gives the same list: the
    descending order is the reverse of the ascending one. *)
Lemma sort_decorated_reverse l :
  untied lt l →
  sort_decorated lt true l = rev (sort_decorated lt false l).
Proof.
  intros Hu. unfold sort_decorated. f_equal.
  apply (StronglySorted_unique_strong (before lt)).
  - intros x1 x2 _ _ H1 H2. by destruct (lt_asym _ _ H1 H2).
  - apply stable_sort_sorted.
    eapply untied_Permutation; [|exact Hu]. apply Permutation_rev.
  - by apply stable_sort_sorted.
  - rewrite !stable_sort_Permutation. symmetry. apply Permutation_rev.
Qed.
End Untied.
End PySortFacts.

(** * The order of sort keys *)

Lemma float_lt_trans a b c :
  float_lt a b = true → float_lt b c = true → float_lt a c = true.
Proof.
  destruct a as [|p| |], b as [|q| |], c as [|r| |]; simpl; try done.
  rewrite !negb_true_iff, <- !not_true_iff_false, !Qle_bool_iff.
  intros Hpq Hqr Hrp. apply Hqr.
  apply Qle_trans with p; [done|]. apply Qlt_le_weak. by apply Qnot_le_lt.
Qed.

Lemma float_lt_asym a b : float_lt a b = true → float_lt b a = true → False.
Proof.
  destruct a as [|p| |], b as [|q| |]; simpl; try done.
  rewrite !negb_true_iff, <- !not_true_iff_false, !Qle_bool_iff.
  intros Hqp Hpq. apply Hqp. apply Qlt_le_weak. by apply Qnot_le_lt.
Qed.

Lemma ascii_compare_Lt_trans a b c :
  Ascii.compare a b = Lt → Ascii.compare b c = Lt → Ascii.compare a c = Lt.
Proof.
  unfold Ascii.compare. rewrite !N.compare_lt_iff. apply N.lt_trans.
Qed.

Lemma string_compare_Lt_trans : ∀ s1 s2 s3,
  String.compare s1 s2 = Lt → String.compare s2 s3 = Lt →
  String.compare s1 s3 = Lt.
Proof.
  induction s1 as [|a s1 IH]; intros [|b s2] [|c s3]; simpl; try done.
  destruct (Ascii.compare a b) eqn:Hab; [|intros _|done].
  - apply Ascii.compare_eq_iff in Hab as ->.
    destruct (Ascii.compare b c); [apply IH|done|done].
  - destruct (Ascii.compare b c) eqn:Hbc; [|intros _|done].
    + apply Ascii.compare_eq_iff in Hbc as <-. by rewrite Hab.
    + by rewrite (ascii_compare_Lt_trans _ _ _ Hab Hbc).
Qed.

Lemma string_ltb_trans s1 s2 s3 :
  String.ltb s1 s2 = true → String.ltb s2 s3 = true → String.ltb s1 s3 = true.
Proof.
  unfold String.ltb.
  destruct (String.compare s1 s2) eqn:H12; try done.
  destruct (String.compare s2 s3) eqn:H23; try done.
  by rewrite (string_compare_Lt_trans _ _ _ H12 H23).
Qed.

Lemma string_ltb_asym s1 s2 :
  String.ltb s1 s2 = true → String.ltb s2 s1 = true → False.
Proof.
  unfold String.ltb. rewrite (String.compare_antisym s2 s1).
  by destruct (String.compare s1 s2).
Qed.

Lemma key_lt_trans a b c :
  key_lt a b = true → key_lt b c = true → key_lt a c = true.
Proof.
  destruct a, b, c; simpl; try done.
  - apply float_lt_trans.
  - apply string_ltb_trans.
  - rewrite !Z.ltb_lt. lia.
  - rewrite !bool_decide_eq_true. intros ? ?. by etrans.
Qed.

Lemma key_lt_asym a b : key_lt a b = true → key_lt b a = true → False.
Proof.
  destruct a, b; simpl; try done.
  - apply float_lt_asym.
  - apply string_ltb_asym.
  - rewrite !Z.ltb_lt. lia.
  - rewrite !bool_decide_eq_true. intros [_ Hn] [Hs _]. by apply Hn.
Qed.

Lemma no_ties_untied {A} (l : list (key * A)) :
  no_ties l.*1 = true → untied key_lt l.
Proof.
  induction l as [|x l IH]; simpl.
  - intros _ i j a b _ Ha. done.
  - rewrite andb_true_iff, forallb_forall. intros [Hx Hl].
    apply untied_cons. split; [|by apply IH].
    apply Forall_forall. intros y Hy.
    assert (Hin : In y.1 l.*1).
    { apply list_elem_of_In, list_elem_of_fmap. by exists y. }
    specialize (Hx _ Hin). apply orb_true_iff in Hx. exact Hx.
Qed.

(** * Properties of the tables *)

Section GuiFacts.
Context `{PyRuntime}.

Lemma filter_split {A} (P : A → bool) (l : list A) :
  List.filter P l ++ List.filter (λ x, negb (P x)) l ≡ₚ l.
Proof.
  induction l as [|x l IH]; simpl; [done|].
  destruct (P x); simpl; [by rewrite IH|].
  by rewrite <- Permutation_middle, IH.
Qed.

Lemma Forall_filter_true {A} (P : A → bool) (l : list A) :
  Forall (λ x, P x = true) (List.filter P l).
Proof. apply Forall_forall. intros x Hx. by apply list_elem_of_In, filter_In in Hx as [_ ?]. Qed.

Lemma filter_all {A} (P : A → bool) (l : list A) :
  Forall (λ x, P x = true) l → List.filter P l = l.
Proof.
  induction 1 as [|x l Hx _ IH]; simpl; [done|]. by rewrite Hx, IH.
Qed.

Lemma filter_none {A} (P : A → bool) (l : list A) :
  Forall (λ x, P x = false) l → List.filter P l = [].
Proof.
  induction 1 as [|x l Hx _ IH]; simpl; [done|]. by rewrite Hx, IH.
Qed.

(** A list made of a part where [P] holds followed by a part where it
    does not. *)
Lemma pinned_app {A} (P : A → bool) (fs os : list A) :
  Forall (λ x, P x = true) fs → Forall (λ x, P x = false) os →
  ∀ i j a b, (fs ++ os) !! i = Some a → (fs ++ os) !! j = Some b →
             P a = true → P b = false → (i < j)%nat.
Proof.
  intros Hfs Hos i j a b Ha Hb Pa Pb.
  rewrite Forall_lookup in Hfs. rewrite Forall_lookup in Hos.
  destruct (decide (i < length fs)%nat) as [Hi|Hi]; cycle 1.
  { rewrite lookup_app_r in Ha by lia. apply Hos in Ha. congruence. }
  destruct (decide (j < length fs)%nat) as [Hj|Hj]; [|lia].
  rewrite lookup_app_l in Hb by lia. apply Hfs in Hb. congruence.
Qed.

Lemma partition_of_app {A} (P : A → bool) (fs os : list A) :
  Forall (λ x, P x = true) fs → Forall (λ x, P x = false) os →
  List.filter P (fs ++ os) = fs ∧
  List.filter (λ x, negb (P x)) (fs ++ os) = os.
Proof.
  intros Hfs Hos. rewrite !List.filter_app.
  rewrite (filter_all P fs) by done. rewrite (filter_none P os) by done.
  rewrite (filter_none (λ x, negb (P x)) fs), (filter_all (λ x, negb (P x)) os).
  - by rewrite app_nil_r.
  - eapply Forall_impl; [exact Hos|]. by intros x ->.
  - eapply Forall_impl; [exact Hfs|]. by intros x ->.
Qed.

(** The two sorted parts of the Authors table. *)
Lemma refresh_tree_order_parts rows current_sort ordered :
  refresh_tree_order rows current_sort = Return ordered →
  ∃ fs os, ordered = fs ++ os ∧
    fs ≡ₚ List.filter flagged rows ∧
    os ≡ₚ List.filter (λ r, negb (flagged r)) rows.
Proof.
  destruct current_sort as [[c|] desc]; unfold refresh_tree_order;
    (destruct (py_sort _ _ _ (List.filter flagged rows)) as [fs|] eqn:Hf;
       [|done]);
    cbv beta iota;
    (destruct (py_sort _ _ _ (List.filter (λ r, negb (flagged r)) rows))
       as [os|] eqn:Ho; [|done]);
    intros [= <-]; exists fs, os;
    eauto using py_sort_Permutation.
Qed.

Lemma refresh_tree_order_flags rows current_sort ordered :
  refresh_tree_order rows current_sort = Return ordered →
  ∃ fs os, ordered = fs ++ os ∧
    fs ≡ₚ List.filter flagged rows ∧
    os ≡ₚ List.filter (λ r, negb (flagged r)) rows ∧
    Forall (λ r, flagged r = true) fs ∧ Forall (λ r, flagged r = false) os.
Proof.
  intros (fs & os & -> & Hfs & Hos)%refresh_tree_order_parts.
  exists fs, os. repeat split; [done..| |].
  - rewrite Hfs. apply Forall_filter_true.
  - rewrite Hos. eapply Forall_impl; [apply Forall_filter_true|].
    intros r. simpl. by destruct (flagged r).
Qed.

(** The two sorted parts of the Co-authors table. *)
Lemma co_order_parts current_co_sort items :
  ∃ fs os, co_order current_co_sort items = fs ++ os ∧
    fs ≡ₚ List.filter (λ it, co_flagged it.2) items ∧
    os ≡ₚ List.filter (λ it, negb (co_flagged it.2)) items.
Proof.
  assert (Hsorted : ∀ reverse (k : string * Entry → key) l,
    List.map snd (sort_decorated key_lt reverse (List.map (λ it, (k it, it)) l))
    ≡ₚ l).
  { intros reverse k l.
    change (List.map snd) with (fmap (M:=list) (@snd key (string * Entry))).
    rewrite sort_decorated_Permutation.
    change (List.map (λ it, (k it, it)) l).*2 with
      (List.map snd (List.map (λ it, (k it, it)) l)).
    rewrite List.map_map. simpl. by rewrite List.map_id. }
  destruct current_co_sort as [[c|] desc]; unfold co_order; eexists _, _;
    (split; [reflexivity|]); split; apply Hsorted.
Qed.

(** The sort returns when every key does. *)
Lemma py_sort_returns {A} (key : A → outcome key) reverse (l : list A) :
  (∀ x, ∃ k, key x = Return k) →
  ∃ sorted, py_sort key_lt key reverse l = Return sorted.
Proof.
  intros Hkey. unfold py_sort.
  assert (∃ kl, decorate key l = Return kl) as [kl ->]; [|by eexists].
  induction l as [|x l [kl IH]]; simpl; [by eexists|].
  destruct (Hkey x) as [k ->]. rewrite IH. by eexists.
Qed.

(** The Authors table is ordered, whatever the rows hold, for every
    column but [ss_name] and [ss_id], whose values must be text for
    [lower] to apply. *)
Lemma refresh_tree_order_returns rows col desc :
  col ≠ Some col_ss_name → col ≠ Some col_ss_id →
  ∃ ordered, refresh_tree_order rows (col, desc) = Return ordered.
Proof.
  intros Hname Hid.
  assert (Hby_name : ∀ r : Row, ∃ k, lower_text (JStr (zotero_name r)) = Return k).
  { intros r. unfold lower_text, py_or. destruct (truthy _); by eexists. }
  assert (Hkey : ∀ r : Row, ∃ k, sort_key col r = Return k).
  { intros r. destruct col as [[]|]; try done; try (by eexists); apply Hby_name. }
  unfold refresh_tree_order. destruct col as [c|].
  - destruct (py_sort_returns (sort_key (Some c)) desc
                (List.filter flagged rows) Hkey) as [fs ->].
    destruct (py_sort_returns (sort_key (Some c)) desc
                (List.filter (λ r, negb (flagged r)) rows) Hkey) as [os ->].
    by eexists.
  - destruct (py_sort_returns (λ r, lower_text (JStr (zotero_name r))) false
                (List.filter flagged rows) Hby_name) as [fs ->].
    destruct (py_sort_returns (λ r, lower_text (JStr (zotero_name r))) false
                (List.filter (λ r, negb (flagged r)) rows) Hby_name) as [os ->].
    by eexists.
Qed.

(** C7 — Pinning invariant: in the ordered output of the Authors table
    and of the Co-authors table, for every sort column and direction,
    every flagged item stands at a strictly smaller index than every
    unflagged item; the output holds exactly the input items. *)
Theorem flagged_pinned_first :
  (∀ rows current_sort ordered,
     refresh_tree_order rows current_sort = Return ordered →
     ordered ≡ₚ rows ∧
     ∀ i j ri rj,
       ordered !! i = Some ri → ordered !! j = Some rj →
       flagged ri = true → flagged rj = false → (i < j)%nat)
  ∧
  (∀ items current_co_sort,
     co_order current_co_sort items ≡ₚ items ∧
     ∀ i j a b,
       co_order current_co_sort items !! i = Some a →
       co_order current_co_sort items !! j = Some b →
       co_flagged a.2 = true → co_flagged b.2 = false → (i < j)%nat).
Proof.
  split.
  - intros rows current_sort ordered
      (fs & os & -> & Hfs & Hos & Ff & Fo)%refresh_tree_order_flags.
    split; [by rewrite Hfs, Hos, filter_split|].
    by apply (pinned_app flagged).
  - intros items current_co_sort.
    destruct (co_order_parts current_co_sort items) as (fs & os & -> & Hfs & Hos).
    split; [by rewrite Hfs, Hos, (filter_split (λ it, co_flagged it.2))|].
    apply (pinned_app (λ it : string * Entry, co_flagged it.2)).
    + rewrite Hfs. apply (Forall_filter_true (λ it : string * Entry, co_flagged it.2)).
    + rewrite Hos. eapply Forall_impl;
        [apply (Forall_filter_true (λ it : string * Entry, negb (co_flagged it.2)))|].
      intros it. simpl. by destruct (co_flagged it.2).
Qed.

(** With a column chosen, each part is the sort of its rows. *)
Lemma refresh_tree_order_column rows c desc ordered :
  refresh_tree_order rows (Some c, desc) = Return ordered →
  ∃ fs os, ordered = fs ++ os ∧
    py_sort key_lt (sort_key (Some c)) desc (List.filter flagged rows)
      = Return fs ∧
    py_sort key_lt (sort_key (Some c)) desc
      (List.filter (λ r, negb (flagged r)) rows) = Return os.
Proof.
  unfold refresh_tree_order.
  destruct (py_sort _ _ _ (List.filter flagged rows)) as [fs|]; [|done].
  destruct (py_sort _ _ _ (List.filter (λ r, negb (flagged r)) rows))
    as [os|]; [|done].
  intros [= <-]. by exists fs, os.
Qed.

(** Without ties the two directions of a sort are mirror images. *)
Lemma py_sort_toggle col (l o1 o2 : list Row) desc :
  no_tied_keys col l = true →
  py_sort key_lt (sort_key col) desc l = Return o1 →
  py_sort key_lt (sort_key col) (negb desc) l = Return o2 →
  o2 = rev o1.
Proof.
  unfold no_tied_keys, py_sort.
  destruct (decorate (sort_key col) l) as [kl|]; [|done].
  intros Hties%no_ties_untied [= <-] [= <-].
  pose proof (sort_decorated_reverse key_lt key_lt_trans key_lt_asym kl Hties)
    as Hrev.
  destruct desc; simpl negb; rewrite Hrev, List.map_rev; [|done].
  by rewrite List.rev_involutive.
Qed.

Lemma column_eqb_refl c : column_eqb c c = true.
Proof. by destruct c. Qed.

(** A click that succeeds shows the rows ordered with the direction the
    heading held, and flips that direction for the next click. *)
Lemma click_heading_inv col a a1 :
  click_heading col a = (Return (), a1) →
  refresh_tree_order (rows a) (Some col, heading a col) = Return (tree a1) ∧
  rows a1 = rows a ∧
  heading a1 col = negb (heading a col).
Proof.
  unfold click_heading, sort_by, refresh_tree. cbn [rows current_sort].
  destruct (refresh_tree_order (rows a) (Some col, heading a col))
    as [ordered|]; [|done].
  intros [= <-]. cbn. by rewrite column_eqb_refl.
Qed.

(** C8 (as amended) — Direction toggle: two successive clicks on the
    heading of a column order the table in the two directions.  The
    partitioning is the same in both (flagged rows first, the same rows
    in each part), and a part whose rows have pairwise distinct sort keys
    appears in exactly the reverse order. *)
Theorem toggle_reverses_untied_parts col a a1 a2 :
  click_heading col a = (Return (), a1) →
  click_heading col a1 = (Return (), a2) →
  let fl := List.filter flagged in
  let ot := List.filter (λ r, negb (flagged r)) in
  tree a1 = fl (tree a1) ++ ot (tree a1) ∧
  tree a2 = fl (tree a2) ++ ot (tree a2) ∧
  fl (tree a2) ≡ₚ fl (tree a1) ∧
  ot (tree a2) ≡ₚ ot (tree a1) ∧
  (no_tied_keys (Some col) (fl (rows a)) = true →
     fl (tree a2) = rev (fl (tree a1))) ∧
  (no_tied_keys (Some col) (ot (rows a)) = true →
     ot (tree a2) = rev (ot (tree a1))).
Proof.
  intros (Ho1 & Hr1 & Hh1)%click_heading_inv (Ho2 & _ & _)%click_heading_inv.
  rewrite Hr1, Hh1 in Ho2. intros fl ot.
  destruct (refresh_tree_order_column _ _ _ _ Ho1) as (f1 & o1 & E1 & Hf1 & Hos1).
  destruct (refresh_tree_order_column _ _ _ _ Ho2) as (f2 & o2 & E2 & Hf2 & Hos2).
  assert (Hparts : ∀ desc fs os,
    py_sort key_lt (sort_key (Some col)) desc (List.filter flagged (rows a))
      = Return fs →
    py_sort key_lt (sort_key (Some col)) desc
      (List.filter (λ r, negb (flagged r)) (rows a)) = Return os →
    fs ≡ₚ List.filter flagged (rows a) ∧
    os ≡ₚ List.filter (λ r, negb (flagged r)) (rows a) ∧
    fl (fs ++ os) = fs ∧ ot (fs ++ os) = os).
  { intros desc fs os Hfs%py_sort_Permutation Hos%py_sort_Permutation.
    split; [done|]. split; [done|].
    apply partition_of_app.
    - rewrite Hfs. apply Forall_filter_true.
    - rewrite Hos. eapply Forall_impl; [apply Forall_filter_true|].
      intros r. simpl. by destruct (flagged r). }
  destruct (Hparts _ _ _ Hf1 Hos1) as (Pf1 & Po1 & Hfl1 & Hot1).
  destruct (Hparts _ _ _ Hf2 Hos2) as (Pf2 & Po2 & Hfl2 & Hot2).
  rewrite E1, E2, Hfl1, Hot1, Hfl2, Hot2.
  repeat split; [by rewrite Pf1, Pf2 | by rewrite Po1, Po2 | |].
  - intros Hties. exact (py_sort_toggle _ _ _ _ _ Hties Hf1 Hf2).
  - intros Hties. exact (py_sort_toggle _ _ _ _ _ Hties Hos1 Hos2).
Qed.

(** ** Aggregation *)

Lemma dict_get_set {V} (k k' : string) (v : V) (d : list (string * V)) :
  dict_get k (dict_set k' v d) =
  if String.eqb k k' then Some v else dict_get k d.
Proof.
  induction d as [|[k0 v0] d IH]; simpl.
  - done.
  - destruct (String.eqb_spec k' k0) as [->|Hne]; simpl.
    + by destruct (String.eqb k k0).
    + rewrite IH. destruct (String.eqb_spec k k0) as [->|]; [|done].
      destruct (String.eqb_spec k0 k'); [congruence|done].
Qed.

(** One step of the loop, seen from one name. *)
Lemma dict_get_add_coauthor name r co item :
  dict_get name (add_coauthor r co item) =
  if counts_towards name r item
  then Some (credit item.2 (zotero_name r) (default new_entry (dict_get name co)))
  else dict_get name co.
Proof.
  destruct item as [co_name cnt]. unfold add_coauthor, counts_towards. simpl.
  destruct (String.eqb_spec co_name name) as [->|Hne]; simpl.
  - destruct (String.eqb name ""); [done|]. simpl.
    destruct (str_equals name (ss_name r)); [done|]. simpl.
    by rewrite dict_get_set, String.eqb_refl.
  - destruct (String.eqb co_name ""); [done|].
    destruct (str_equals co_name (ss_name r)); [done|].
    rewrite dict_get_set.
    destruct (String.eqb_spec name co_name); [congruence|done].
Qed.

Lemma dict_get_add_coauthors name r items : ∀ co,
  dict_get name (foldl (add_coauthor r) co items) =
  foldl credit_to (dict_get name co)
    (items ≫= λ item,
       if counts_towards name r item then [(item.2, zotero_name r)] else []).
Proof.
  induction items as [|item items IH]; intros co; [done|].
  rewrite bind_cons, foldl_app. simpl foldl at 1. rewrite IH.
  rewrite dict_get_add_coauthor. by destruct (counts_towards name r item).
Qed.

Lemma dict_get_aggregate_from name rows : ∀ co,
  dict_get name
    (foldl (λ co_index r, foldl (add_coauthor r) co_index (coauthor_items r))
           co rows) =
  foldl credit_to (dict_get name co) (contributions name rows).
Proof.
  unfold contributions.
  induction rows as [|r rows IH]; intros co; [done|].
  rewrite bind_cons, foldl_app. simpl foldl at 1.
  by rewrite IH, dict_get_add_coauthors.
Qed.

Lemma foldl_credit_to cs : ∀ e,
  foldl credit_to (Some e) cs =
  Some {| count := count e + foldr Z.add 0 cs.*1;
          mains := mains e ∪ list_to_set cs.*2;
          co_ss_name := co_ss_name e; co_hindex := co_hindex e;
          co_papers := co_papers e; co_ss_id := co_ss_id e;
          co_flagged := co_flagged e |}.
Proof.
  induction cs as [|[cnt main] cs IH]; intros e.
  - destruct e as [n ms ? ? ? ? ?]. cbn.
    by rewrite Z.add_0_r, (right_id_L ∅ (∪)).
  - change (foldl credit_to (Some e) ((cnt, main) :: cs))
      with (foldl credit_to (Some (credit cnt main e)) cs).
    rewrite IH. cbn.
    by rewrite Z.add_assoc, (assoc_L (∪)).
Qed.

(** The aggregate holds, for every name, the entry that sums its
    contributions. *)
Lemma dict_get_aggregate name rows :
  dict_get name (aggregate rows) = expected_entry name rows.
Proof.
  unfold aggregate, expected_entry. rewrite dict_get_aggregate_from.
  destruct (contributions name rows) as [|[cnt main] cs]; [done|].
  change (foldl credit_to (dict_get name []) ((cnt, main) :: cs))
    with (foldl credit_to (Some (credit cnt main new_entry)) cs).
  rewrite foldl_credit_to. cbn.
  by rewrite (left_id_L ∅ (∪)).
Qed.

Lemma sum_Permutation (l1 l2 : list Z) :
  l1 ≡ₚ l2 → foldr Z.add 0 l1 = foldr Z.add 0 l2.
Proof. induction 1; simpl; lia. Qed.

Lemma entry_of_Permutation cs1 cs2 : cs1 ≡ₚ cs2 → entry_of cs1 = entry_of cs2.
Proof.
  intros Hp. destruct cs1 as [|c1 cs1].
  - by apply Permutation_nil in Hp as ->.
  - destruct cs2 as [|c2 cs2]; [by apply Permutation_nil_r in Hp|].
    unfold entry_of. f_equal. f_equal.
    + apply sum_Permutation. by rewrite Hp.
    + by rewrite Hp.
Qed.

(** C5 — Aggregation order-independence: two sequences of rows that are
    permutations of each other aggregate, for every coauthor name, to the
    same entry, hence to the same count total and the same set of main
    authors; and the index is rebuilt from scratch at every run, so that
    running [build_coauthor_index] again on the same rows reproduces it,
    whatever the index held before. *)
Theorem aggregate_order_independent :
  (∀ rows1 rows2 name,
     rows1 ≡ₚ rows2 →
     dict_get name (aggregate rows1) = dict_get name (aggregate rows2) ∧
     count <$> dict_get name (aggregate rows1)
       = count <$> dict_get name (aggregate rows2) ∧
     mains <$> dict_get name (aggregate rows1)
       = mains <$> dict_get name (aggregate rows2))
  ∧
  (∀ rows current_co_sort old,
     build_coauthor_index rows current_co_sort
       (build_coauthor_index rows current_co_sort old)
     = build_coauthor_index rows current_co_sort old ∧
     co_index (build_coauthor_index rows current_co_sort old) = aggregate rows).
Proof.
  split; [|done].
  intros rows1 rows2 name Hp.
  assert (E : dict_get name (aggregate rows1) = dict_get name (aggregate rows2)).
  { rewrite !dict_get_aggregate. unfold expected_entry.
    apply entry_of_Permutation. unfold contributions. by rewrite Hp. }
  by rewrite E.
Qed.

(** C6 (as amended) — Self-name exclusion: an item of a row's coauthor
    map whose name equals the row's own [ss_name], or whose name is
    empty, leaves the index as it is: it adds to no count and to no set
    of main authors.  Every other item adds its count to the running
    total of its name and the row's [zotero_name] to the main authors of
    that name, and touches no other name.  Hence the aggregate holds for
    each name the sum and the contributors of the items that are not
    excluded. *)
Theorem self_name_excluded :
  (∀ r co co_name cnt,
     co_name = "" ∨ ss_name r = JStr co_name →
     add_coauthor r co (co_name, cnt) = co)
  ∧
  (∀ r co co_name cnt,
     co_name ≠ "" → ss_name r ≠ JStr co_name →
     dict_get co_name (add_coauthor r co (co_name, cnt)) =
       Some (credit cnt (zotero_name r)
               (default new_entry (dict_get co_name co))) ∧
     ∀ other, other ≠ co_name →
       dict_get other (add_coauthor r co (co_name, cnt)) = dict_get other co)
  ∧
  (∀ rows name, dict_get name (aggregate rows) = expected_entry name rows).
Proof.
  split; [|split].
  - intros r co co_name cnt [->|Hself]; unfold add_coauthor; [done|].
    destruct (String.eqb co_name ""); [done|].
    by rewrite Hself; simpl; rewrite String.eqb_refl.
  - intros r co co_name cnt Hne Hself.
    assert (Hs : str_equals co_name (ss_name r) = false).
    { unfold str_equals. destruct (ss_name r) as [| | |s| |]; try done.
      destruct (String.eqb_spec co_name s); [congruence|done]. }
    split.
    + rewrite dict_get_add_coauthor. unfold counts_towards. simpl.
      rewrite String.eqb_refl, Hs.
      by destruct (String.eqb_spec co_name "").
    + intros other Hother. rewrite dict_get_add_coauthor.
      unfold counts_towards. simpl.
      by destruct (String.eqb_spec co_name other); [congruence|].
  - intros rows name. apply dict_get_aggregate.
Qed.
End GuiFacts.

(** * The properties on the example data *)

(** The end-to-end example of the specification. *)
Example end_to_end :
  dict_get "Charles Babbage" (aggregate [ex_ada; ex_alan]) =
    Some {| count := 3; mains := {[ "Ada Lovelace"; "Alan Turing" ]};
            co_ss_name := ""; co_hindex := JStr ""; co_papers := JStr "";
            co_ss_id := ""; co_flagged := false |} ∧
  dict_get "Alonzo Church" (aggregate [ex_ada; ex_alan]) =
    Some {| count := 3; mains := {[ "Alan Turing" ]};
            co_ss_name := ""; co_hindex := JStr ""; co_papers := JStr "";
            co_ss_id := ""; co_flagged := false |}.
Proof. split; vm_compute; reflexivity. Qed.

(** C1 on a transport that finds the author at once: one request for
    the two calls. *)
Lemma search_memoized_witness :
  ∃ wa,
    ss_search_author (H:=ref_runtime) ex_finds "Ada Lovelace" None ex_base ex_world
      = (Return ex_top, wa) ∧
    cache wa !! search_key "Ada Lovelace" = Some ex_top ∧
    ss_search_author (H:=ref_runtime) ex_finds "Ada Lovelace" None ex_base wa
      = (Return ex_top, wa) ∧
    net_log wa = net_log ex_fetched ∧
    (∀ r0,
       ex_finds (net_log ex_world)
         (mkRequest (search_url (H:=ref_runtime) "Ada Lovelace")
            (api_headers None)) = Answer r0 →
       status_code r0 = 200 →
       net_log wa =
         net_log ex_world ++
         [mkRequest (search_url (H:=ref_runtime) "Ada Lovelace")
            (api_headers None)]).
Proof.
  apply (search_memoized (H:=ref_runtime) ex_finds "Ada Lovelace" None ex_base
           ex_world ex_found ex_fetched
           (JObj [("data", JArr [ex_top])]) ex_top).
  - reflexivity.
  - vm_compute. reflexivity.
  - reflexivity.
  - reflexivity.
  - reflexivity.
Defined.

(** C1 as stated fails: when the service answers 404 the first call
    caches nothing and the second call asks the network again, two
    requests in all. *)
Lemma failed_search_asks_twice :
  let t := ex_always (Answer (ex_status 404)) in
  let '(o1, w1) :=
    ss_search_author (H:=ref_runtime) t "Ada Lovelace" None ex_base ex_world in
  let '(o2, w2) :=
    ss_search_author (H:=ref_runtime) t "Ada Lovelace" None ex_base w1 in
  o1 = Return JNull ∧ o2 = Return JNull ∧
  cache w1 = cache ex_world ∧
  length (net_log w1) = 1%nat ∧ length (net_log w2) = 2%nat ∧
  length (net_log w2) ≠ 1%nat.
Proof. vm_compute. repeat split. lia. Qed.

(** C2 on the same transport: the ex_top result is stored and served from
    the cache afterwards. *)
Lemma search_result_cached_witness :
  ∃ wa,
    ss_search_author (H:=ref_runtime) ex_finds "Ada Lovelace" None ex_base ex_world
      = (Return ex_top, wa) ∧
    cache wa = <[search_key "Ada Lovelace" := ex_top]> (cache ex_world) ∧
    ∀ w2, cache w2 !! search_key "Ada Lovelace" = Some ex_top →
          ss_search_author (H:=ref_runtime) ex_finds "Ada Lovelace" None ex_base w2
            = (Return ex_top, w2).
Proof.
  refine (proj1 (search_result_cached (H:=ref_runtime) ex_finds "Ada Lovelace"
                   None ex_base ex_world _)
            ex_found ex_fetched (JObj [("data", JArr [ex_top])]) ex_top _ _ _ _).
  - reflexivity.
  - vm_compute. reflexivity.
  - reflexivity.
  - reflexivity.
  - reflexivity.
Defined.

(** C2 as stated fails: after a search that met a network exception the
    key is still absent, and the next call issues a request. *)
Lemma failed_search_not_cached :
  let t := ex_always NetworkException in
  let '(o1, w1) :=
    ss_search_author (H:=ref_runtime) t "Ada Lovelace" None ex_base ex_world in
  let '(o2, w2) :=
    ss_search_author (H:=ref_runtime) t "Ada Lovelace" None ex_base w1 in
  o1 = Return JNull ∧
  cache w1 !! search_key "Ada Lovelace" = None ∧
  net_log w2 =
    net_log w1 ++ [mkRequest (search_url (H:=ref_runtime) "Ada Lovelace") []] ∧
  net_log w2 ≠ net_log w1.
Proof. vm_compute. repeat split. discriminate. Qed.



(** C5 on the rows of the end-to-end example, in the two orders. *)
Lemma aggregate_order_independent_witness :
  dict_get "Charles Babbage" (aggregate [ex_ada; ex_alan])
    = dict_get "Charles Babbage" (aggregate [ex_alan; ex_ada]) ∧
  count <$> dict_get "Charles Babbage" (aggregate [ex_ada; ex_alan])
    = count <$> dict_get "Charles Babbage" (aggregate [ex_alan; ex_ada]) ∧
  mains <$> dict_get "Charles Babbage" (aggregate [ex_ada; ex_alan])
    = mains <$> dict_get "Charles Babbage" (aggregate [ex_alan; ex_ada]).
Proof.
  apply (proj1 (aggregate_order_independent (H:=ref_runtime))
           [ex_ada; ex_alan] [ex_alan; ex_ada] "Charles Babbage").
  apply perm_swap.
Defined.

(** C6 on a row that lists itself among its coauthors. *)
Lemma self_name_excluded_witness :
  add_coauthor ex_ada [("Charles Babbage", ex_church)] ("Ada Lovelace", 5)
    = [("Charles Babbage", ex_church)] ∧
  dict_get "Charles Babbage"
    (add_coauthor ex_ada [("Charles Babbage", ex_church)]
       ("Charles Babbage", 2))
    = Some (credit 2 "Ada Lovelace" ex_church).
Proof.
  split.
  - apply (proj1 (self_name_excluded)
             ex_ada [("Charles Babbage", ex_church)] "Ada Lovelace" 5).
    right. reflexivity.
  - apply (proj1 (proj2 (self_name_excluded)) ex_ada
             [("Charles Babbage", ex_church)] "Charles Babbage" 2);
      discriminate.
Defined.

(** C6 as stated fails: an entry whose name is empty differs from the
    row's own name, yet it is not added to the aggregate. *)
Lemma empty_name_not_added :
  In ("", 2) (coauthor_items ex_blank_coauthor) ∧
  ss_name ex_blank_coauthor ≠ JStr "" ∧
  aggregate [ex_blank_coauthor] = [] ∧
  dict_get "" (aggregate [ex_blank_coauthor]) = None.
Proof. repeat split; [by left | discriminate]. Qed.

(** C7 on four rows, one of them flagged, sorted by descending h-index;
    and on a Co-authors table with one flagged item. *)
Lemma flagged_pinned_first_witness :
  ([ex_alan; ex_ada; ex_emmy; ex_grace]
     ≡ₚ [ex_ada; ex_alan; ex_grace; ex_emmy] ∧
   ∀ i j ri rj,
     [ex_alan; ex_ada; ex_emmy; ex_grace] !! i = Some ri →
     [ex_alan; ex_ada; ex_emmy; ex_grace] !! j = Some rj →
     flagged ri = true → flagged rj = false → (i < j)%nat) ∧
  (∀ i j a b,
     co_order (H:=ref_runtime) (Some ccol_count, false)
       [("Alonzo Church", ex_church); ("Charles Babbage", ex_babbage)]
       !! i = Some a →
     co_order (H:=ref_runtime) (Some ccol_count, false)
       [("Alonzo Church", ex_church); ("Charles Babbage", ex_babbage)]
       !! j = Some b →
     co_flagged a.2 = true → co_flagged b.2 = false → (i < j)%nat).
Proof.
  split.
  - apply (proj1 (flagged_pinned_first (H:=ref_runtime))
             [ex_ada; ex_alan; ex_grace; ex_emmy] (Some col_hindex, true)).
    vm_compute. reflexivity.
  - apply (proj2 (flagged_pinned_first (H:=ref_runtime))
             [("Alonzo Church", ex_church); ("Charles Babbage", ex_babbage)]
             (Some ccol_count, false)).
Defined.

(** C8 on three rows with distinct paper counts: the second click shows
    each part in the reverse order of the first. *)
Lemma toggle_reverses_untied_parts_witness :
  let a := ex_authors [ex_ada; ex_alan; ex_emmy] in
  let a1 := (click_heading (H:=ref_runtime) col_papers a).2 in
  let a2 := (click_heading (H:=ref_runtime) col_papers a1).2 in
  let fl := List.filter flagged in
  let ot := List.filter (λ r, negb (flagged r)) in
  tree a1 = [ex_alan; ex_ada; ex_emmy] ∧
  tree a2 = [ex_alan; ex_emmy; ex_ada] ∧
  tree a1 = fl (tree a1) ++ ot (tree a1) ∧
  tree a2 = fl (tree a2) ++ ot (tree a2) ∧
  fl (tree a2) ≡ₚ fl (tree a1) ∧
  ot (tree a2) ≡ₚ ot (tree a1) ∧
  fl (tree a2) = rev (fl (tree a1)) ∧
  ot (tree a2) = rev (ot (tree a1)).
Proof.
  intros a a1 a2 fl ot.
  destruct (toggle_reverses_untied_parts (H:=ref_runtime) col_papers a a1 a2
              eq_refl eq_refl) as (H1 & H2 & H3 & H4 & H5 & H6).
  split; [reflexivity|]. split; [reflexivity|].
  split; [exact H1|]. split; [exact H2|].
  split; [exact H3|]. split; [exact H4|]. split.
  - apply H5. vm_compute. reflexivity.
  - apply H6. vm_compute. reflexivity.
Defined.

(** C8 as stated fails: two rows with the same h-index stay in the same
    order when the direction is toggled. *)
Lemma tied_rows_not_reversed :
  let a := ex_authors [ex_ada; ex_emmy] in
  let '(o1, a1) := click_heading (H:=ref_runtime) col_hindex a in
  let '(o2, a2) := click_heading (H:=ref_runtime) col_hindex a1 in
  o1 = Return () ∧ o2 = Return () ∧
  current_sort a1 = (Some col_hindex, false) ∧
  current_sort a2 = (Some col_hindex, true) ∧
  tree a1 = [ex_ada; ex_emmy] ∧ tree a2 = [ex_ada; ex_emmy] ∧
  List.filter (λ r, negb (flagged r)) (tree a2)
    ≠ rev (List.filter (λ r, negb (flagged r)) (tree a1)).
Proof. vm_compute. repeat split. discriminate. Qed.

(** C9 on a service that rejects [aliases] once: the second request asks
    for the other fields and its answer is stored. *)
Lemma details_aliases_fallback_witness :
  let w1 :=
    (safe_get (H:=ref_runtime) ex_rejects_aliases
       (details_url (H:=ref_runtime) (Some "A1") "name,aliases,hIndex") []
       ex_base 6 ex_world).2 in
  let w2 :=
    (safe_get (H:=ref_runtime) ex_rejects_aliases
       (details_url (H:=ref_runtime) (Some "A1") "name,hIndex") []
       ex_base 6 w1).2 in
  drop_aliases (H:=ref_runtime) "name,aliases,hIndex" = "name,hIndex" ∧
  ss_get_author_details (H:=ref_runtime) ex_rejects_aliases (Some "A1")
    None "name,aliases,hIndex" ex_base ex_world
    = details_outcome (Some "A1") (Return (Some ex_details), w2) ∧
  (∀ r2, Some ex_details = Some r2 → status_code r2 ≠ 200 →
     ss_get_author_details (H:=ref_runtime) ex_rejects_aliases (Some "A1")
       None "name,aliases,hIndex" ex_base ex_world = (Return JNull, w2)) ∧
  cache w2 = cache ex_world.
Proof.
  intros w1 w2. split; [reflexivity|].
  refine (details_aliases_fallback (H:=ref_runtime) ex_rejects_aliases
            (Some "A1") None "name,aliases,hIndex" ex_base ex_world
            (ex_unsupported "aliases") w1 _ _ _ _ (Some ex_details) w2 _).
  - reflexivity.
  - reflexivity.
  - vm_compute. reflexivity.
  - discriminate.
  - vm_compute. reflexivity.
Defined.

(** C9 as stated fails: with the default field list, a 400 response that
    names [hIndex] as unsupported is not followed by any retry. *)
Lemma unsupported_field_not_retried :
  let t := ex_always (Answer (ex_unsupported "hIndex")) in
  let '(o, w) :=
    ss_get_author_details (H:=ref_runtime) t (Some "A1") None
      "name,hIndex,paperCount" ex_base ex_world in
  o = Return JNull ∧
  net_log w =
    [mkRequest (details_url (H:=ref_runtime) (Some "A1")
                  "name,hIndex,paperCount") []] ∧
  length (net_log w) = 1%nat.
Proof. vm_compute. repeat split. Qed.

(** * Further properties of [ss_utils.py] *)

Section SafeGetFacts.
Context `{PyRuntime} (transport : Transport).

Implicit Types (w : World) (u : string) (hs : list (string * string)).

(** What a run of the retry loop leaves behind: [k] requests for the same
    URL, at most one sleep per request, an untouched cache, and as result
    the reply to the last request. *)
Lemma safe_get_loop_trace remaining : ∀ attempt last_resp u hs base w,
  let o := (safe_get_loop transport remaining attempt last_resp u hs base w).1 in
  let w' := (safe_get_loop transport remaining attempt last_resp u hs base w).2 in
  cache w' = cache w ∧ cache_file w' = cache_file w ∧
  ∃ k ws,
    (k ≤ remaining)%nat ∧
    net_log w' = net_log w ++ replicate k (mkRequest u hs) ∧
    sleep_log w' = sleep_log w ++ ws ∧
    (length ws ≤ k)%nat ∧
    match k with
    | O => o = last_resp ∧ remaining = 0%nat
    | S k' =>
        transport (net_log w ++ replicate k' (mkRequest u hs)) (mkRequest u hs)
        = match o with Some r => Answer r | None => NetworkException end
    end.
Proof.
  induction remaining as [|n IH]; intros attempt last_resp u hs base w;
    cbn [safe_get_loop].
  - cbn. split; [done|]. split; [done|]. exists 0%nat, [].
    by rewrite !app_nil_r.
  - unfold requests_get.
    destruct (transport (net_log w) (mkRequest u hs)) as [|resp] eqn:Ht.
    { cbn. split; [done|]. split; [done|]. exists 1%nat, [].
      rewrite !app_nil_r. cbn. auto with lia. }
    assert (Hstop : ∀ o : option Response, o = Some resp →
      let run := (o, {| cache := cache w; cache_file := cache_file w;
                        net_log := net_log w ++ [mkRequest u hs];
                        sleep_log := sleep_log w |}) in
      cache run.2 = cache w ∧ cache_file run.2 = cache_file w ∧
      ∃ k ws,
        (k ≤ S n)%nat ∧
        net_log run.2 = net_log w ++ replicate k (mkRequest u hs) ∧
        sleep_log run.2 = sleep_log w ++ ws ∧
        (length ws ≤ k)%nat ∧
        match k with
        | O => run.1 = last_resp ∧ S n = 0%nat
        | S k' =>
            transport (net_log w ++ replicate k' (mkRequest u hs))
              (mkRequest u hs)
            = match run.1 with Some r => Answer r | None => NetworkException end
        end).
    { intros o ->. cbn. split; [done|]. split; [done|]. exists 1%nat, [].
      rewrite !app_nil_r. cbn. auto with lia. }
    assert (Hgo : ∀ wait,
      let run := safe_get_loop transport n (attempt + 1) (Some resp) u hs base
                   (time_sleep wait
                      {| cache := cache w; cache_file := cache_file w;
                         net_log := net_log w ++ [mkRequest u hs];
                         sleep_log := sleep_log w |}) in
      cache run.2 = cache w ∧ cache_file run.2 = cache_file w ∧
      ∃ k ws,
        (k ≤ S n)%nat ∧
        net_log run.2 = net_log w ++ replicate k (mkRequest u hs) ∧
        sleep_log run.2 = sleep_log w ++ ws ∧
        (length ws ≤ k)%nat ∧
        match k with
        | O => run.1 = last_resp ∧ S n = 0%nat
        | S k' =>
            transport (net_log w ++ replicate k' (mkRequest u hs))
              (mkRequest u hs)
            = match run.1 with Some r => Answer r | None => NetworkException end
        end).
    { intros wait run.
      destruct (IH (attempt + 1) (Some resp) u hs base
                  (time_sleep wait
                     {| cache := cache w; cache_file := cache_file w;
                        net_log := net_log w ++ [mkRequest u hs];
                        sleep_log := sleep_log w |}))
        as (Hc & Hf & k & ws & Hk & Hn & Hs & Hl & Hlast).
      fold run in Hc, Hf, Hn, Hs, Hlast. cbn in Hc, Hf, Hn, Hs, Hlast.
      split; [done|]. split; [done|].
      exists (S k), (wait :: ws). split; [lia|].
      split; [by rewrite Hn, <- app_assoc|].
      split; [by rewrite Hs, <- app_assoc|].
      split; [cbn; lia|].
      destruct k as [|k'].
      - destruct Hlast as [-> _]. cbn. by rewrite app_nil_r.
      - rewrite <- app_assoc in Hlast. exact Hlast. }
    destruct (status_code resp =? 200); [by apply Hstop|].
    destruct (status_code resp =? 429); [apply Hgo|].
    destruct (existsb _ _); [apply Hgo | by apply Hstop].
Qed.

(** X1 — The retry budget is a hard ceiling: [safe_get] issues at most
    [max_retries] requests, all for the URL and headers it was given, and
    sleeps at most once per request; it reads and writes neither the cache
    nor the cache file. *)
Theorem safe_get_budget u hs base max_retries w :
  ∃ o w' k ws,
    safe_get transport u hs base max_retries w = (Return o, w') ∧
    (k ≤ Z.to_nat max_retries)%nat ∧
    net_log w' = net_log w ++ replicate k (mkRequest u hs) ∧
    sleep_log w' = sleep_log w ++ ws ∧
    (length ws ≤ k)%nat ∧
    cache w' = cache w ∧ cache_file w' = cache_file w.
Proof.
  unfold safe_get.
  destruct (safe_get_loop_trace (Z.to_nat max_retries) 0 None u hs base w)
    as (Hc & Hf & k & ws & Hk & Hn & Hs & Hl & _).
  destruct (safe_get_loop _ _ _ _ _ _ _ _) as [o w']. simpl in *.
  exists o, w', k, ws. done.
Qed.

(** X2 — What [safe_get] returns is the reply to the last request it
    issued: a response [r] is the transport's answer to that request, and
    [None] means that the last request met a network exception, or that
    no request was issued at all because the budget was not positive. *)
Theorem safe_get_returns_last_reply u hs base max_retries w o w' :
  safe_get transport u hs base max_retries w = (Return o, w') →
  (net_log w' = net_log w ∧ o = None ∧ max_retries ≤ 0) ∨
  ∃ k, net_log w' = net_log w ++ replicate (S k) (mkRequest u hs) ∧
       transport (net_log w ++ replicate k (mkRequest u hs)) (mkRequest u hs)
       = match o with Some r => Answer r | None => NetworkException end.
Proof.
  unfold safe_get. intros Hrun.
  destruct (safe_get_loop_trace (Z.to_nat max_retries) 0 None u hs base w)
    as (_ & _ & k & ws & Hk & Hn & _ & _ & Hlast).
  destruct (safe_get_loop _ _ _ _ _ _ _ _) as [o0 w0]. simpl in *.
  injection Hrun as <- <-.
  destruct k as [|k].
  - left. destruct Hlast as [-> Hz]. rewrite Hn. simpl. rewrite app_nil_r.
    repeat split. lia.
  - right. by exists k.
Qed.

(** X3 — A network exception ends [safe_get] at once, whatever came
    before: after any number of retried attempts, an exception on the next
    request makes it return [None] (not the last response obtained),
    without a further request or sleep. *)
Theorem safe_get_network_exception u hs base max_retries w (rs : list Response) :
  (length rs < Z.to_nat max_retries)%nat →
  (∀ k r, rs !! k = Some r →
     transport (net_log w ++ replicate k (mkRequest u hs)) (mkRequest u hs)
       = Answer r ∧
     is_Some (spec_backoff_wait base (Z.of_nat k) (status_code r))) →
  transport (net_log w ++ replicate (length rs) (mkRequest u hs))
    (mkRequest u hs) = NetworkException →
  safe_get transport u hs base max_retries w =
  (Return None,
   {| cache := cache w; cache_file := cache_file w;
      net_log := net_log w ++ replicate (S (length rs)) (mkRequest u hs);
      sleep_log := sleep_log w ++ spec_schedule base 0 (status_code <$> rs) |}).
Proof.
  intros Hlen Hrs Hexc. unfold safe_get.
  rewrite (safe_get_loop_retries transport rs) by (lia || done).
  destruct (Z.to_nat max_retries - length rs)%nat as [|n] eqn:En; [lia|].
  cbn [safe_get_loop]. unfold requests_get. cbn [net_log]. rewrite Hexc.
  cbn. do 2 f_equal.
  by rewrite <- app_assoc, <- replicate_cons_app.
Qed.

(** X4 — A response that is neither a 429 nor a 500, 502, 503 or 504 ends
    [safe_get] at once: after any number of retried attempts it is
    returned as it is (a 200 as well as, say, a 404), without a further
    request or sleep. *)
Theorem safe_get_terminal_response u hs base max_retries w
    (rs : list Response) (r : Response) :
  (length rs < Z.to_nat max_retries)%nat →
  (∀ k r', rs !! k = Some r' →
     transport (net_log w ++ replicate k (mkRequest u hs)) (mkRequest u hs)
       = Answer r' ∧
     is_Some (spec_backoff_wait base (Z.of_nat k) (status_code r'))) →
  transport (net_log w ++ replicate (length rs) (mkRequest u hs))
    (mkRequest u hs) = Answer r →
  spec_backoff_wait base (Z.of_nat (length rs)) (status_code r) = None →
  safe_get transport u hs base max_retries w =
  (Return (Some r),
   {| cache := cache w; cache_file := cache_file w;
      net_log := net_log w ++ replicate (S (length rs)) (mkRequest u hs);
      sleep_log := sleep_log w ++ spec_schedule base 0 (status_code <$> rs) |}).
Proof.
  intros Hlen Hrs Hans Hterm. unfold safe_get.
  rewrite (safe_get_loop_retries transport rs) by (lia || done).
  destruct (Z.to_nat max_retries - length rs)%nat as [|n] eqn:En; [lia|].
  cbn [safe_get_loop]. unfold requests_get. cbn [net_log]. rewrite Hans.
  assert (Hlog : (net_log w ++ replicate (length rs) (mkRequest u hs)) ++
                 [mkRequest u hs]
                 = net_log w ++ replicate (S (length rs)) (mkRequest u hs))
    by (by rewrite <- app_assoc, <- replicate_cons_app).
  unfold spec_backoff_wait in Hterm.
  destruct (status_code r =? 200) eqn:E200; [cbn; by rewrite Hlog|].
  destruct (status_code r =? 429) eqn:E429; [done|].
  assert (E5 : existsb (Z.eqb (status_code r)) [500; 502; 503; 504] = false).
  { simpl. rewrite orb_false_r, !orb_assoc. by destruct (_ || _). }
  rewrite E5. cbn. by rewrite Hlog.
Qed.
End SafeGetFacts.

Section LookupFacts.
Context `{PyRuntime} (transport : Transport).

Implicit Types (w : World).

Lemma lookup_effect_refl key w : lookup_effect key w w.
Proof. by left. Qed.

(** A fetch followed by a store under a key that was absent. *)
Lemma lookup_effect_store key v w w1 :
  cache w !! key = None →
  cache w1 = cache w →
  lookup_effect key w
    {| cache := <[key := v]> (cache w1);
       cache_file := Some (<[key := v]> (cache w1));
       net_log := net_log w1; sleep_log := sleep_log w1 |}.
Proof. intros Hmiss Hc. right. split; [done|]. exists v. cbn. by rewrite Hc. Qed.

Lemma search_effect name api_key base w :
  lookup_effect (search_key name) w
    (ss_search_author transport name api_key base w).2.
Proof.
  destruct (cache w !! search_key name) as [v|] eqn:Hk.
  - rewrite (search_hit transport _ _ _ _ _ Hk). apply lookup_effect_refl.
  - rewrite (search_miss transport _ _ _ _ Hk).
    destruct (safe_get_budget transport (search_url name) (api_headers api_key)
                base 6 w) as (o & w1 & k & ws & -> & _ & _ & _ & _ & Hc & Hf).
    assert (Hsame : lookup_effect (search_key name) w w1) by by left.
    destruct o as [r|]; [|done].
    destruct (negb _); [done|].
    destruct (json_body r) as [j|]; [|done].
    destruct (top_result j); [|done].
    by apply lookup_effect_store.
Qed.

Lemma details_loop_effect n : ∀ author_id hs fields base w,
  cache w !! author_key author_id = None →
  lookup_effect (author_key author_id) w
    (details_loop transport n author_id hs fields base w).2.
Proof.
  induction n as [|n IH]; intros author_id hs fields base w Hmiss;
    cbn [details_loop]; [apply lookup_effect_refl|].
  unfold mbind, M_bind, bind.
  destruct (safe_get_budget transport (details_url author_id fields) hs base 6 w)
    as (o & w1 & k & ws & -> & _ & _ & _ & _ & Hc & Hf).
  assert (Hsame : lookup_effect (author_key author_id) w w1) by by left.
  destruct o as [r|]; [|done].
  destruct (status_code r =? 200).
  - destruct (json_body r) as [j|]; [|done]. cbn. by apply lookup_effect_store.
  - destruct (aliases_fallback r fields); [|done].
    assert (Hmiss1 : cache w1 !! author_key author_id = None) by by rewrite Hc.
    destruct (IH author_id hs (drop_aliases fields) base w1 Hmiss1)
      as [[Hc2 Hf2]|(_ & v & Hc2 & Hf2)].
    + left. split; congruence.
    + right. split; [done|]. exists v. split; [congruence|done].
Qed.

Lemma details_effect author_id api_key fields base w :
  lookup_effect (author_key author_id) w
    (ss_get_author_details transport author_id api_key fields base w).2.
Proof.
  unfold ss_get_author_details.
  destruct (id_missing author_id); [apply lookup_effect_refl|].
  unfold mbind, M_bind, bind, get_cache.
  destruct (cache w !! author_key author_id) eqn:Hk;
    [apply lookup_effect_refl|].
  by apply details_loop_effect.
Qed.

Lemma coauthors_effect author_id api_key max_papers base w :
  lookup_effect (coauthors_key author_id) w
    (ss_get_author_coauthors transport author_id api_key max_papers base w).2.
Proof.
  unfold ss_get_author_coauthors.
  destruct (id_missing author_id); [apply lookup_effect_refl|].
  unfold mbind, M_bind, bind, get_cache.
  destruct (cache w !! coauthors_key author_id) eqn:Hk;
    [apply lookup_effect_refl|].
  destruct (safe_get_budget transport (papers_url author_id max_papers)
              (api_headers api_key) base 6 w)
    as (o & w1 & k & ws & -> & _ & _ & _ & _ & Hc & Hf).
  assert (Hsame : lookup_effect (coauthors_key author_id) w w1) by by left.
  destruct o as [r|]; [|done].
  destruct (negb _); [done|].
  destruct (json_body r) as [j|]; [|done].
  unfold lift. destruct (coauthor_counts j); [|done].
  cbn. by apply lookup_effect_store.
Qed.

(** X5 — Entries are permanent and a lookup writes only its own key:
    whatever the network answers, each of the three lookups leaves the
    cache as it is or adds the one key [search::<name>], [author::<id>] or
    [coauthors::<id>], which was absent before; no entry is ever removed or
    overwritten. *)
Theorem lookups_only_add_own_key name author_id api_key fields max_papers
    base w :
  let grows := λ (key : string) (w' : World),
    cache w ⊆ cache w' ∧
    ∀ k, k ≠ key → cache w' !! k = cache w !! k in
  grows (search_key name)
    (ss_search_author transport name api_key base w).2 ∧
  grows (author_key author_id)
    (ss_get_author_details transport author_id api_key fields base w).2 ∧
  grows (coauthors_key author_id)
    (ss_get_author_coauthors transport author_id api_key max_papers base w).2.
Proof.
  assert (Hgrows : ∀ key w', lookup_effect key w w' →
    cache w ⊆ cache w' ∧ ∀ k, k ≠ key → cache w' !! k = cache w !! k).
  { intros key w' [[-> _]|(Hmiss & v & -> & _)]; [done|].
    split; [by apply insert_subseteq|].
    intros k Hk. by rewrite lookup_insert_ne. }
  intros grows. unfold grows.
  split; [|split]; apply Hgrows;
    [apply search_effect | apply details_effect | apply coauthors_effect].
Qed.

(** X6 — The cache file follows the cache: each of the three lookups
    writes the file out whenever it changes the cache, so that a file
    that holds the cache before a lookup holds it afterwards, and holds it
    after any lookup that added an entry. *)
Theorem lookups_keep_file_in_sync name author_id api_key fields max_papers
    base w :
  let synced := λ (w' : World),
    (cache_file w = Some (cache w) → cache_file w' = Some (cache w')) ∧
    (cache w' ≠ cache w → cache_file w' = Some (cache w')) in
  synced (ss_search_author transport name api_key base w).2 ∧
  synced (ss_get_author_details transport author_id api_key fields base w).2 ∧
  synced
    (ss_get_author_coauthors transport author_id api_key max_papers base w).2.
Proof.
  assert (Hsync : ∀ key w', lookup_effect key w w' →
    (cache_file w = Some (cache w) → cache_file w' = Some (cache w')) ∧
    (cache w' ≠ cache w → cache_file w' = Some (cache w'))).
  { intros key w' [[Hc Hf]|(_ & v & _ & Hf)]; [|done].
    split; [congruence|done]. }
  intros synced. unfold synced.
  split; [|split]; eapply Hsync;
    [apply search_effect | apply details_effect | apply coauthors_effect].
Qed.
(** On a cache miss the coauthors lookup is the fetch followed by the
    inspection of its result. *)
Lemma coauthors_miss author_id api_key max_papers base w :
  id_missing author_id = false →
  cache w !! coauthors_key author_id = None →
  ss_get_author_coauthors transport author_id api_key max_papers base w =
  match safe_get transport (papers_url author_id max_papers)
          (api_headers api_key) base 6 w with
  | (Return (Some r), w1) =>
      if negb (status_code r =? 200) then (Return (JObj []), w1)
      else match json_body r with
           | None => (Return (JObj []), w1)
           | Some j =>
               match coauthor_counts j with
               | Return counts =>
                   (Return (counts_json counts),
                    {| cache := <[coauthors_key author_id := counts_json counts]>
                                  (cache w1);
                       cache_file :=
                         Some (<[coauthors_key author_id := counts_json counts]>
                                 (cache w1));
                       net_log := net_log w1; sleep_log := sleep_log w1 |})
               | Raise e => (Raise e, w1)
               end
           end
  | (Return None, w1) => (Return (JObj []), w1)
  | (Raise e, w1) => (Raise e, w1)
  end.
Proof.
  intros Hid Hmiss. unfold ss_get_author_coauthors. rewrite Hid.
  unfold mbind, M_bind, bind, get_cache. rewrite Hmiss.
  destruct (safe_get _ _ _ _ _ _) as [[[r|]|e] w1]; try done.
  destruct (negb _); [done|].
  destruct (json_body r) as [j|]; [|done].
  unfold lift. by destruct (coauthor_counts j).
Qed.

Lemma coauthors_hit author_id api_key max_papers base w v :
  id_missing author_id = false →
  cache w !! coauthors_key author_id = Some v →
  ss_get_author_coauthors transport author_id api_key max_papers base w
    = (Return v, w).
Proof.
  intros Hid Hhit. unfold ss_get_author_coauthors. rewrite Hid.
  unfold mbind, M_bind, bind, get_cache. by rewrite Hhit.
Qed.

Lemma details_hit author_id api_key fields base w v :
  id_missing author_id = false →
  cache w !! author_key author_id = Some v →
  ss_get_author_details transport author_id api_key fields base w
    = (Return v, w).
Proof.
  intros Hid Hhit. unfold ss_get_author_details. rewrite Hid.
  unfold mbind, M_bind, bind, get_cache. by rewrite Hhit.
Qed.

(** The requests of one round of the details loop. *)
Lemma details_loop_one_round author_id hs fields base w :
  ∃ k, (k ≤ 6)%nat ∧
    net_log (details_loop transport 1 author_id hs fields base w).2 =
    net_log w ++ replicate k (mkRequest (details_url author_id fields) hs).
Proof.
  cbn [details_loop]. unfold mbind, M_bind, bind.
  destruct (safe_get_budget transport (details_url author_id fields) hs base 6 w)
    as (o & w1 & k & ws & -> & Hk & Hn & _).
  exists k. split; [done|].
  destruct o as [r|]; [|done].
  destruct (status_code r =? 200); [by destruct (json_body r)|].
  by destruct (aliases_fallback r fields).
Qed.

(** X7 — Requests per lookup: a search and a coauthors lookup issue at
    most 6 requests, all for their one URL; a details lookup issues at
    most 6 requests for the requested fields followed by at most 6 for the
    fields without [aliases], 12 in all. *)
Theorem lookup_request_bounds name author_id api_key fields max_papers base w :
  (∃ k, (k ≤ 6)%nat ∧
     net_log (ss_search_author transport name api_key base w).2 =
     net_log w ++
     replicate k (mkRequest (search_url name) (api_headers api_key))) ∧
  (∃ k1 k2, (k1 ≤ 6)%nat ∧ (k2 ≤ 6)%nat ∧
     net_log
       (ss_get_author_details transport author_id api_key fields base w).2 =
     net_log w ++
     replicate k1
       (mkRequest (details_url author_id fields) (api_headers api_key)) ++
     replicate k2
       (mkRequest (details_url author_id (drop_aliases fields))
          (api_headers api_key))) ∧
  (∃ k, (k ≤ 6)%nat ∧
     net_log
       (ss_get_author_coauthors transport author_id api_key max_papers base w).2
     = net_log w ++
       replicate k
         (mkRequest (papers_url author_id max_papers) (api_headers api_key))).
Proof.
  split; [|split].
  - destruct (cache w !! search_key name) as [v|] eqn:Hk.
    { rewrite (search_hit transport _ _ _ _ _ Hk).
      exists 0%nat. cbn. rewrite app_nil_r. split; [lia|done]. }
    rewrite (search_miss transport _ _ _ _ Hk).
    destruct (safe_get_budget transport (search_url name) (api_headers api_key)
                base 6 w) as (o & w1 & k & ws & -> & Hk6 & Hn & _).
    exists k. split; [done|].
    destruct o as [r|]; [|done].
    destruct (negb _); [done|].
    destruct (json_body r) as [j|]; [|done].
    by destruct (top_result j).
  - unfold ss_get_author_details.
    destruct (id_missing author_id).
    { exists 0%nat, 0%nat. cbn. rewrite app_nil_r.
      split; [lia|]. split; [lia|done]. }
    unfold mbind, M_bind, bind, get_cache.
    destruct (cache w !! author_key author_id).
    { exists 0%nat, 0%nat. cbn. rewrite app_nil_r.
      split; [lia|]. split; [lia|done]. }
    cbn [details_loop]. unfold mbind, M_bind, bind.
    destruct (safe_get_budget transport (details_url author_id fields)
                (api_headers api_key) base 6 w)
      as (o & w1 & k & ws & -> & Hk6 & Hn & _).
    assert (Hone : ∀ w' : World, net_log w' = net_log w1 →
      ∃ k1 k2, (k1 ≤ 6)%nat ∧ (k2 ≤ 6)%nat ∧
        net_log w' = net_log w ++
          replicate k1
            (mkRequest (details_url author_id fields) (api_headers api_key)) ++
          replicate k2
            (mkRequest (details_url author_id (drop_aliases fields))
               (api_headers api_key))).
    { intros w' ->. exists k, 0%nat. cbn. rewrite app_nil_r. auto with lia. }
    destruct o as [r|]; [|by apply Hone].
    destruct (status_code r =? 200);
      [destruct (json_body r); by apply Hone|].
    destruct (aliases_fallback r fields); [|by apply Hone].
    destruct (details_loop_one_round author_id (api_headers api_key)
                (drop_aliases fields) base w1) as (k2 & Hk2 & Hn2).
    exists k, k2. split; [done|]. split; [done|].
    cbn [details_loop] in Hn2. unfold mbind, M_bind, bind in Hn2.
    rewrite Hn2, Hn, <- app_assoc. done.
  - unfold ss_get_author_coauthors.
    destruct (id_missing author_id) eqn:Hid.
    { exists 0%nat. cbn. rewrite app_nil_r. split; [lia|done]. }
    unfold mbind, M_bind, bind, get_cache.
    destruct (cache w !! coauthors_key author_id).
    { exists 0%nat. cbn. rewrite app_nil_r. split; [lia|done]. }
    destruct (safe_get_budget transport (papers_url author_id max_papers)
                (api_headers api_key) base 6 w)
      as (o & w1 & k & ws & -> & Hk6 & Hn & _).
    exists k. split; [done|].
    destruct o as [r|]; [|done].
    destruct (negb _); [done|].
    destruct (json_body r) as [j|]; [|done].
    unfold lift. by destruct (coauthor_counts j).
Qed.

(** X8 — Details are cached by id alone: once a details fetch has
    obtained a 200 response whose body parses, the object is stored under
    [author::<id>] and every later lookup of that id returns it without a
    request, whatever field list or API key the later call asks with. *)
Theorem details_memoized_by_id author_id api_key fields base w r w1 j :
  id_missing author_id = false →
  cache w !! author_key author_id = None →
  safe_get transport (details_url author_id fields) (api_headers api_key)
    base 6 w = (Return (Some r), w1) →
  status_code r = 200 →
  json_body r = Some j →
  ∃ wa,
    ss_get_author_details transport author_id api_key fields base w
      = (Return j, wa) ∧
    net_log wa = net_log w1 ∧
    ∀ api_key' fields' base',
      ss_get_author_details transport author_id api_key' fields' base' wa
        = (Return j, wa).
Proof.
  intros Hid Hmiss Hget H200 Hjson.
  unfold ss_get_author_details at 1. rewrite Hid.
  unfold mbind, M_bind, bind, get_cache. rewrite Hmiss.
  cbn [details_loop]. unfold mbind, M_bind, bind.
  rewrite Hget, H200, Hjson. cbn.
  eexists. split; [done|]. split; [done|].
  intros api_key' fields' base'. apply details_hit; [done|].
  cbn. apply lookup_insert_eq.
Qed.

(** X9 — Coauthor counts are cached by id alone, empty or not: once a
    papers fetch has obtained a 200 response whose body parses and counts
    without an exception, the map is stored under [coauthors::<id>], and
    every later lookup of that id returns it without a request, whatever
    [max_papers] or API key the later call asks with. *)
Theorem coauthors_memoized_by_id author_id api_key max_papers base w r w1 j
    counts :
  id_missing author_id = false →
  cache w !! coauthors_key author_id = None →
  safe_get transport (papers_url author_id max_papers) (api_headers api_key)
    base 6 w = (Return (Some r), w1) →
  status_code r = 200 →
  json_body r = Some j →
  coauthor_counts j = Return counts →
  ∃ wa,
    ss_get_author_coauthors transport author_id api_key max_papers base w
      = (Return (counts_json counts), wa) ∧
    net_log wa = net_log w1 ∧
    ∀ api_key' max_papers' base',
      ss_get_author_coauthors transport author_id api_key' max_papers' base' wa
        = (Return (counts_json counts), wa).
Proof.
  intros Hid Hmiss Hget H200 Hjson Hcounts.
  rewrite (coauthors_miss _ _ _ _ _ Hid Hmiss), Hget, H200, Hjson, Hcounts.
  cbn. eexists. split; [done|]. split; [done|].
  intros api_key' max_papers' base'. apply coauthors_hit; [done|].
  cbn. apply lookup_insert_eq.
Qed.

(** X10 — A failed coauthors lookup looks like an empty result but is
    not remembered: when the fetch meets a network exception, a non-200
    status or a body that does not parse, the lookup returns the empty
    map and stores nothing, and the next lookup of the id queries the
    network again. *)
Theorem coauthors_failure_not_cached author_id api_key max_papers base w o w1 :
  id_missing author_id = false →
  cache w !! coauthors_key author_id = None →
  safe_get transport (papers_url author_id max_papers) (api_headers api_key)
    base 6 w = (Return o, w1) →
  (o = None ∨ ∃ r, o = Some r ∧ (status_code r ≠ 200 ∨ json_body r = None)) →
  ss_get_author_coauthors transport author_id api_key max_papers base w
    = (Return (JObj []), w1) ∧
  cache w1 = cache w ∧
  ∃ o2 w2 extra,
    ss_get_author_coauthors transport author_id api_key max_papers base w1
      = (o2, w2) ∧
    net_log w2 = net_log w1 ++
      mkRequest (papers_url author_id max_papers) (api_headers api_key) :: extra.
Proof.
  intros Hid Hmiss Hget Hfail.
  destruct (safe_get_requests transport (papers_url author_id max_papers)
              (api_headers api_key) base w)
    as (o' & w1' & extra & Hget' & Hc & _).
  rewrite Hget in Hget'. injection Hget' as _ <-.
  assert (Hmiss1 : cache w1 !! coauthors_key author_id = None) by by rewrite Hc.
  split; [|split; [done|]].
  - rewrite (coauthors_miss _ _ _ _ _ Hid Hmiss), Hget.
    destruct Hfail as [->|(r & -> & [Hs|Hj])]; [done| |].
    + destruct (status_code r =? 200) eqn:E; [|done].
      apply Z.eqb_eq in E. done.
    + destruct (negb _); [done|]. by rewrite Hj.
  - rewrite (coauthors_miss _ _ _ _ _ Hid Hmiss1).
    destruct (safe_get_requests transport (papers_url author_id max_papers)
                (api_headers api_key) base w1)
      as (o2 & w2 & extra2 & -> & _ & Hn).
    destruct o2 as [r2|]; [|by eexists _, _, _].
    destruct (negb _); [by eexists _, _, _|].
    destruct (json_body r2) as [j2|]; [|by eexists _, _, _].
    destruct (coauthor_counts j2); by eexists _, _, _.
Qed.

(** X11 — A search answer that is not a JSON object escapes as an
    exception: on a 200 response whose body parses to anything but an
    object (a list, a string, a number, null), [ss_search_author] raises
    [AttributeError] instead of returning [None], and stores nothing. *)
Theorem search_raises_on_non_object name api_key base w r w1 j :
  cache w !! search_key name = None →
  safe_get transport (search_url name) (api_headers api_key) base 6 w
    = (Return (Some r), w1) →
  status_code r = 200 →
  json_body r = Some j →
  (∀ fields, j ≠ JObj fields) →
  ss_search_author transport name api_key base w = (Raise AttributeError, w1) ∧
  cache w1 = cache w.
Proof.
  intros Hmiss Hget H200 Hjson Hshape.
  rewrite (search_miss transport _ _ _ _ Hmiss), Hget, H200, Hjson. cbn.
  split.
  - destruct j; try done. by destruct (Hshape fields).
  - destruct (safe_get_requests transport (search_url name)
                (api_headers api_key) base w) as (? & ? & ? & Hget' & Hc & _).
    rewrite Hget in Hget'. by injection Hget' as _ <-.
Qed.

(** X12 — The coauthors lookup tolerates the same answer: on a 200
    response whose body parses to anything but an object it counts no
    paper, returns the empty map and stores it, so that the id is not
    fetched again. *)
Theorem coauthors_non_object_cached_empty author_id api_key max_papers base
    w r w1 j :
  id_missing author_id = false →
  cache w !! coauthors_key author_id = None →
  safe_get transport (papers_url author_id max_papers) (api_headers api_key)
    base 6 w = (Return (Some r), w1) →
  status_code r = 200 →
  json_body r = Some j →
  (∀ fields, j ≠ JObj fields) →
  ∃ wa,
    ss_get_author_coauthors transport author_id api_key max_papers base w
      = (Return (JObj []), wa) ∧
    cache wa !! coauthors_key author_id = Some (JObj []) ∧
    ss_get_author_coauthors transport author_id api_key max_papers base wa
      = (Return (JObj []), wa).
Proof.
  intros Hid Hmiss Hget H200 Hjson Hshape.
  assert (Hcounts : coauthor_counts j = Return []).
  { destruct j; try done. by destruct (Hshape fields). }
  rewrite (coauthors_miss _ _ _ _ _ Hid Hmiss), Hget, H200, Hjson, Hcounts.
  cbn. eexists. split; [done|].
  assert (Hin : ∀ c, (<[coauthors_key author_id := JObj []]> c : gmap string json)
                     !! coauthors_key author_id = Some (JObj []))
    by (intros c; apply lookup_insert_eq).
  split; [apply Hin|]. apply coauthors_hit; [done|]. apply Hin.
Qed.
End LookupFacts.

(** ** Counting coauthors *)

Lemma dict_get_elem_of {V} (k : string) (v : V) (d : list (string * V)) :
  dict_get k d = Some v → (k, v) ∈ d.
Proof.
  induction d as [|[k' v'] d IH]; simpl; [done|].
  destruct (String.eqb_spec k k') as [->|].
  - intros [= ->]. left.
  - intros Hd. right. by apply IH.
Qed.

Lemma dict_set_keys {V} (k : string) (v : V) (d : list (string * V)) x :
  x ∈ (dict_set k v d).*1 → x = k ∨ x ∈ d.*1.
Proof.
  induction d as [|[k' v'] d IH]; simpl.
  - intros ->%list_elem_of_singleton. by left.
  - destruct (String.eqb_spec k k') as [->|]; simpl.
    + intros Hx. by right.
    + intros [->|Hx]%elem_of_cons; [right; left|].
      destruct (IH Hx); [by left|right; by right].
Qed.

Lemma dict_set_NoDup {V} (k : string) (v : V) (d : list (string * V)) :
  NoDup d.*1 → NoDup (dict_set k v d).*1.
Proof.
  induction d as [|[k' v'] d IH]; simpl.
  - intros _. apply NoDup_singleton.
  - intros [Hk' Hd]%NoDup_cons.
    destruct (String.eqb_spec k k') as [->|Hne]; simpl.
    + by apply NoDup_cons.
    + apply NoDup_cons. split; [|by apply IH].
      intros [->|Hx]%dict_set_keys; done.
Qed.

Lemma dict_set_Forall {V} (P : string * V → Prop) k v (d : list (string * V)) :
  Forall P d → P (k, v) → Forall P (dict_set k v d).
Proof.
  induction 1 as [|[k' v'] d Hx Hd IH]; simpl; intros Hkv.
  - by constructor.
  - destruct (String.eqb k k'); constructor; auto.
Qed.

(** The count of one name after [co_counts[n] = co_counts.get(n, 0) + 1]. *)
Lemma dict_get_count_name name n (co : list (string * Z)) :
  dict_get name (count_name n co) =
  if String.eqb name n then Some (default 0 (dict_get n co) + 1)
  else dict_get name co.
Proof. unfold count_name. apply dict_get_set. Qed.

Lemma dict_get_count_names name (ns : list string) : ∀ co,
  dict_get name (foldl (λ co n, count_name n co) co ns) =
  match length (List.filter (String.eqb name) ns) with
  | O => dict_get name co
  | c => Some (default 0 (dict_get name co) + Z.of_nat c)
  end.
Proof.
  induction ns as [|n ns IH]; intros co; [done|].
  cbn [foldl List.filter]. rewrite IH, dict_get_count_name.
  destruct (String.eqb_spec name n) as [->|Hne]; [|done].
  cbn [length default].
  destruct (length (List.filter (String.eqb n) ns)); f_equal; unfold id; lia.
Qed.

Lemma count_author_named n a co :
  author_named n a → n ≠ "" → count_author a co = Return (count_name n co).
Proof.
  intros (fields & -> & Hname) Hn. unfold count_author. rewrite Hname.
  by destruct n.
Qed.

Lemma count_authors_named ns authors : ∀ co,
  Forall2 author_named ns authors → Forall (λ n, n ≠ "") ns →
  count_authors authors co = Return (foldl (λ co n, count_name n co) co ns).
Proof.
  intros co Hall. revert co.
  induction Hall as [|n a ns authors Ha _ IH]; intros co Hns; [done|].
  apply Forall_cons in Hns as [Hn Hns]. cbn [count_authors foldl].
  rewrite (count_author_named n a co Ha Hn). by apply IH.
Qed.

Lemma count_paper_by ns p co :
  paper_by ns p → Forall (λ n, n ≠ "") ns →
  count_paper p co = Return (foldl (λ co n, count_name n co) co ns).
Proof.
  intros (fields & authors & -> & Hauthors & Hall) Hns.
  unfold count_paper. rewrite Hauthors. cbn [default from_option id].
  unfold py_or.
  destruct authors as [|a authors].
  - apply Forall2_nil_inv_r in Hall as ->. done.
  - cbn [truthy]. by apply count_authors_named.
Qed.

Lemma count_papers_by nss papers : ∀ co,
  Forall2 paper_by nss papers → Forall (Forall (λ n, n ≠ "")) nss →
  count_papers papers co =
  Return (foldl (λ co n, count_name n co) co (concat nss)).
Proof.
  intros co Hall. revert co.
  induction Hall as [|ns p nss papers Hp _ IH]; intros co Hnss; [done|].
  apply Forall_cons in Hnss as [Hns Hnss]. cbn [count_papers concat].
  rewrite (count_paper_by ns p co Hp Hns), foldl_app. by apply IH.
Qed.

(** X13 — The coauthor map counts author entries: for an answer of the
    papers endpoint whose papers list authors with non-empty names, the
    map holds exactly the names listed, each with the number of author
    entries that bear it over all papers (the queried author included, and
    a name listed twice on one paper counted twice). *)
Theorem coauthor_counts_tally nss j :
  papers_payload nss j →
  Forall (Forall (λ n, n ≠ "")) nss →
  ∃ counts,
    coauthor_counts j = Return counts ∧
    ∀ name, dict_get name counts =
      match occurrences name nss with
      | O => None
      | c => Some (Z.of_nat c)
      end.
Proof.
  intros (fields & papers & -> & Hdata & Hall) Hnss.
  unfold coauthor_counts. rewrite Hdata. cbn [default from_option id].
  rewrite (count_papers_by nss papers [] Hall Hnss).
  eexists. split; [done|].
  intros name. rewrite dict_get_count_names. unfold occurrences.
  by destruct (length _).
Qed.

(** A well-formed coauthor map: distinct names, none of them empty, every
    count at least 1. *)
Lemma count_name_well_formed n (co : list (string * Z)) :
  n ≠ "" →
  NoDup co.*1 ∧ Forall (λ kv, kv.1 ≠ "" ∧ 1 ≤ kv.2) co →
  NoDup (count_name n co).*1 ∧
  Forall (λ kv, kv.1 ≠ "" ∧ 1 ≤ kv.2) (count_name n co).
Proof.
  intros Hn [Hnd Hall]. unfold count_name. split; [by apply dict_set_NoDup|].
  apply dict_set_Forall; [done|]. split; [done|]. cbn.
  destruct (dict_get n co) as [c|] eqn:Hc; cbn; [|lia].
  apply dict_get_elem_of in Hc. rewrite Forall_forall in Hall.
  destruct (Hall _ Hc) as [_ Hc1]. cbn in Hc1. lia.
Qed.

Lemma count_author_well_formed a co co' :
  count_author a co = Return co' →
  NoDup co.*1 ∧ Forall (λ kv, kv.1 ≠ "" ∧ 1 ≤ kv.2) co →
  NoDup co'.*1 ∧ Forall (λ kv, kv.1 ≠ "" ∧ 1 ≤ kv.2) co'.
Proof.
  unfold count_author. destruct a as [| | | | |fields]; try done.
  destruct (truthy (py_or _ _)) eqn:Ht; cbn [negb].
  - destruct (py_or _ _) as [| | |s| |]; try done.
    intros [= <-]. apply count_name_well_formed.
    intros ->. done.
  - by intros [= <-].
Qed.

Lemma count_authors_well_formed authors : ∀ co co',
  count_authors authors co = Return co' →
  NoDup co.*1 ∧ Forall (λ kv, kv.1 ≠ "" ∧ 1 ≤ kv.2) co →
  NoDup co'.*1 ∧ Forall (λ kv, kv.1 ≠ "" ∧ 1 ≤ kv.2) co'.
Proof.
  induction authors as [|a authors IH]; intros co co'; cbn [count_authors].
  - by intros [= <-].
  - destruct (count_author a co) as [co1|] eqn:Ha; [|done].
    intros Hrest Hco. eapply IH; [exact Hrest|].
    by eapply count_author_well_formed.
Qed.

Lemma count_paper_well_formed p co co' :
  count_paper p co = Return co' →
  NoDup co.*1 ∧ Forall (λ kv, kv.1 ≠ "" ∧ 1 ≤ kv.2) co →
  NoDup co'.*1 ∧ Forall (λ kv, kv.1 ≠ "" ∧ 1 ≤ kv.2) co'.
Proof.
  unfold count_paper. destruct p as [| | | | |fields]; try done.
  destruct (py_or _ _) as [| | |s|authors|fs]; try done.
  - destruct s; [by intros [= <-]|done].
  - apply count_authors_well_formed.
  - destruct fs; [by intros [= <-]|done].
Qed.

Lemma count_papers_well_formed papers : ∀ co co',
  count_papers papers co = Return co' →
  NoDup co.*1 ∧ Forall (λ kv, kv.1 ≠ "" ∧ 1 ≤ kv.2) co →
  NoDup co'.*1 ∧ Forall (λ kv, kv.1 ≠ "" ∧ 1 ≤ kv.2) co'.
Proof.
  induction papers as [|p papers IH]; intros co co'; cbn [count_papers].
  - by intros [= <-].
  - destruct (count_paper p co) as [co1|] eqn:Hp; [|done].
    intros Hrest Hco. eapply IH; [exact Hrest|].
    by eapply count_paper_well_formed.
Qed.

(** X14 — Whatever the papers endpoint answers, a coauthor map that
    [ss_get_author_coauthors] computes has pairwise distinct names, no
    empty name, and counts of at least 1. *)
Theorem coauthor_counts_well_formed j counts :
  coauthor_counts j = Return counts →
  NoDup counts.*1 ∧ Forall (λ kv, kv.1 ≠ "" ∧ 1 ≤ kv.2) counts.
Proof.
  assert (Hnil : NoDup ([] : list (string * Z)).*1 ∧
                 Forall (λ kv : string * Z, kv.1 ≠ "" ∧ 1 ≤ kv.2) []).
  { split; constructor. }
  unfold coauthor_counts.
  destruct (match j with JObj fields => _ | _ => _ end)
    as [| | |s|papers|fs]; try done.
  - destruct s; [by intros [= <-]|done].
  - intros Hrun. by eapply count_papers_well_formed.
  - destruct fs; [by intros [= <-]|done].
Qed.

(** * Further properties of the tables *)

(** ** The rebuilt index *)

Lemma dict_get_of_elem {V} (k : string) (v : V) (d : list (string * V)) :
  NoDup d.*1 → (k, v) ∈ d → dict_get k d = Some v.
Proof.
  induction d as [|[k' v'] d IH]; simpl; [by intros _ ?%elem_of_nil|].
  intros [Hk' Hd]%NoDup_cons [[= <- <-]|Hin]%elem_of_cons.
  - by rewrite String.eqb_refl.
  - destruct (String.eqb_spec k k') as [->|]; [|by apply IH].
    destruct Hk'. apply list_elem_of_fmap. by exists (k', v).
Qed.

Lemma add_coauthor_invariant r item co :
  NoDup co.*1 ∧ Forall (λ it, it.1 ≠ "" ∧ fresh_entry it.2) co →
  NoDup (add_coauthor r co item).*1 ∧
  Forall (λ it, it.1 ≠ "" ∧ fresh_entry it.2) (add_coauthor r co item).
Proof.
  intros [Hnd Hall]. destruct item as [co_name cnt]. unfold add_coauthor.
  destruct (String.eqb_spec co_name "") as [->|Hne]; [done|].
  destruct (str_equals co_name (ss_name r)); [done|].
  split; [by apply dict_set_NoDup|].
  apply dict_set_Forall; [done|]. split; [done|]. cbn.
  destruct (dict_get co_name co) as [e|] eqn:He; cbn.
  - apply dict_get_elem_of in He. rewrite Forall_forall in Hall.
    by destruct (Hall _ He) as [_ ?].
  - done.
Qed.

Lemma aggregate_invariant rows :
  NoDup (aggregate rows).*1 ∧
  Forall (λ it, it.1 ≠ "" ∧ fresh_entry it.2) (aggregate rows).
Proof.
  unfold aggregate.
  assert (Hfrom : ∀ co,
    NoDup co.*1 ∧ Forall (λ it, it.1 ≠ "" ∧ fresh_entry it.2) co →
    NoDup (foldl (λ co_index r,
             foldl (add_coauthor r) co_index (coauthor_items r)) co rows).*1 ∧
    Forall (λ it, it.1 ≠ "" ∧ fresh_entry it.2)
      (foldl (λ co_index r,
         foldl (add_coauthor r) co_index (coauthor_items r)) co rows)).
  { induction rows as [|r rows IH]; intros co Hco; [done|].
    cbn [foldl]. apply IH.
    generalize (coauthor_items r). intros items. revert co Hco.
    induction items as [|item items IHi]; intros co Hco; [done|].
    cbn [foldl]. apply IHi. by apply add_coauthor_invariant. }
  apply Hfrom. split; constructor.
Qed.

Section IndexFacts.
Context `{PyRuntime}.

(** X15 — Rebuilding the index forgets flags and enrichment: whatever the
    previous index held, every entry of the index that
    [build_coauthor_index] builds, and every item of the table it shows,
    is unflagged and has blank Semantic Scholar fields; the pinned part of
    the Co-authors table is therefore empty. *)
Theorem rebuilt_index_is_fresh rows current_co_sort old :
  let built := build_coauthor_index rows current_co_sort old in
  Forall (λ it, fresh_entry it.2) (co_index built) ∧
  Forall (λ it, fresh_entry it.2) (ctree built) ∧
  List.filter (λ it, co_flagged it.2) (ctree built) = [].
Proof.
  intros built.
  assert (Hidx : Forall (λ it : string * Entry, fresh_entry it.2)
                   (aggregate rows)).
  { destruct (aggregate_invariant rows) as [_ Hall].
    eapply Forall_impl; [exact Hall|]. by intros it [_ ?]. }
  assert (Htree : Forall (λ it : string * Entry, fresh_entry it.2)
                    (ctree built)).
  { unfold built, build_coauthor_index. cbn [ctree].
    destruct (co_order_parts current_co_sort (aggregate rows))
      as (fs & os & -> & Hfs & Hos).
    rewrite Hfs, Hos, (filter_split (λ it : string * Entry, co_flagged it.2)).
    exact Hidx. }
  split; [exact Hidx|]. split; [exact Htree|].
  apply filter_none. eapply Forall_impl; [exact Htree|].
  by intros it (? & _).
Qed.

(** X16 — One item per coauthor: the names of the rebuilt index are
    pairwise distinct, and the index lists a name with an entry exactly
    when that entry sums the contributions to the name; a name without a
    contribution is not listed. *)
Theorem index_lists_each_coauthor_once rows :
  NoDup (aggregate rows).*1 ∧
  ∀ name e, (name, e) ∈ aggregate rows ↔ expected_entry name rows = Some e.
Proof.
  destruct (aggregate_invariant rows) as [Hnd _].
  split; [done|]. intros name e. rewrite <- dict_get_aggregate.
  split; [by apply dict_get_of_elem | apply dict_get_elem_of].
Qed.
End IndexFacts.

(** ** Sortedness and stability *)

Section PySortOrder.
Context {A K : Type} (lt : K → K → bool) (P : K → Prop).

Implicit Types (l : list (K * A)) (x : K * A).

Hypothesis lt_asym : ∀ a b, lt a b = true → lt b a = true → False.
Hypothesis lt_weak : ∀ a b c, P a → P b → P c →
  lt c b = false → lt b a = false → lt c a = false.

Lemma insert_by_ordered x l :
  P x.1 → Forall (λ y, P y.1) l →
  StronglySorted (not_after lt) l →
  StronglySorted (not_after lt) (insert_by lt x l).
Proof.
  intros Px Pl Hs. induction Hs as [|y l Hs IH Hy]; simpl.
  - repeat constructor.
  - apply Forall_cons in Pl as [Py Pl].
    destruct (lt y.1 x.1) eqn:Hlt.
    + constructor; [by apply IH|].
      rewrite insert_by_Permutation. constructor; [|done].
      unfold not_after. destruct (lt x.1 y.1) eqn:Hxy; [|done].
      by destruct (lt_asym _ _ Hlt Hxy).
    + constructor; [by constructor|].
      constructor; [done|].
      rewrite Forall_forall in Hy, Pl |- *. intros z Hz.
      unfold not_after. apply (lt_weak x.1 y.1 z.1); auto.
      by apply Hy.
Qed.

Lemma stable_sort_ordered l :
  Forall (λ y, P y.1) l → StronglySorted (not_after lt) (stable_sort lt l).
Proof.
  induction l as [|x l IH]; simpl; [constructor|].
  intros [Px Pl]%Forall_cons.
  apply insert_by_ordered; [done| |by apply IH].
  by rewrite stable_sort_Permutation.
Qed.

Lemma StronglySorted_rev (R : relation (K * A)) l :
  StronglySorted R l → StronglySorted (flip R) (rev l).
Proof.
  induction 1 as [|x l Hs IH Hx]; simpl; [constructor|].
  apply StronglySorted_app_2; [|done|repeat constructor].
  intros y z Hy ->%list_elem_of_singleton. unfold flip.
  rewrite Forall_forall in Hx. apply Hx.
  by apply list_elem_of_In, in_rev, list_elem_of_In.
Qed.

(** In the direction asked for, no item is followed by one that belongs
    before it. *)
Lemma sort_decorated_ordered (reverse : bool) l :
  Forall (λ y, P y.1) l →
  StronglySorted
    (if reverse then flip (not_after (A:=A) lt) else not_after (A:=A) lt)
    (sort_decorated lt reverse l).
Proof.
  intros Pl. unfold sort_decorated. destruct reverse.
  - apply StronglySorted_rev, stable_sort_ordered.
    apply Forall_forall. intros y Hy. rewrite Forall_forall in Pl.
    by apply Pl, list_elem_of_In, in_rev, list_elem_of_In.
  - by apply stable_sort_ordered.
Qed.

Lemma insert_by_tied k x l :
  P k → P x.1 → Forall (λ y, P y.1) l →
  List.filter (tied lt k) (insert_by lt x l) = List.filter (tied lt k) (x :: l).
Proof.
  intros Pk Px. induction l as [|y l IH]; [done|].
  intros [Py Pl]%Forall_cons. cbn [insert_by].
  destruct (lt y.1 x.1) eqn:Hlt; [|done].
  cbn [List.filter]. rewrite (IH Pl). cbn [List.filter].
  destruct (tied lt k y) eqn:Hy; [|done].
  destruct (tied lt k x) eqn:Hx; [|done].
  unfold tied in Hx, Hy.
  apply andb_true_iff in Hx as [Hkx _]. apply andb_true_iff in Hy as [_ Hyk].
  apply negb_true_iff in Hkx, Hyk.
  rewrite (lt_weak x.1 k y.1) in Hlt; done.
Qed.

Lemma stable_sort_tied k l :
  P k → Forall (λ y, P y.1) l →
  List.filter (tied lt k) (stable_sort lt l) = List.filter (tied lt k) l.
Proof.
  intros Pk. induction l as [|x l IH]; [done|].
  intros [Px Pl]%Forall_cons. cbn [stable_sort foldr].
  fold (stable_sort lt l). rewrite insert_by_tied; [|done|done|].
  - cbn [List.filter]. by rewrite IH.
  - by rewrite stable_sort_Permutation.
Qed.

Lemma filter_rev {B} (f : B → bool) (l : list B) :
  List.filter f (rev l) = rev (List.filter f l).
Proof.
  induction l as [|b l IH]; [done|]. cbn [rev List.filter].
  rewrite List.filter_app, IH. cbn [List.filter].
  destruct (f b); [done|]. by rewrite app_nil_r.
Qed.

(** In both directions the items with equal keys keep their order. *)
Lemma sort_decorated_tied (reverse : bool) k l :
  P k → Forall (λ y, P y.1) l →
  List.filter (tied lt k) (sort_decorated lt reverse l)
    = List.filter (tied lt k) l.
Proof.
  intros Pk Pl. unfold sort_decorated. destruct reverse.
  - rewrite filter_rev, stable_sort_tied, filter_rev, rev_involutive; [done..|].
    apply Forall_forall. intros y Hy. rewrite Forall_forall in Pl.
    by apply Pl, list_elem_of_In, in_rev, list_elem_of_In.
  - by apply stable_sort_tied.
Qed.
End PySortOrder.

Lemma StronglySorted_lookup {B} (R : relation B) (l : list B) i j x y :
  StronglySorted R l → (i < j)%nat → l !! i = Some x → l !! j = Some y → R x y.
Proof.
  intros Hs. revert i j. induction Hs as [|z l Hs IH Hz]; intros i j Hij Hi Hj.
  - done.
  - destruct j as [|j]; [lia|]. destruct i as [|i].
    + injection Hi as ->. rewrite Forall_forall in Hz.
      apply Hz. by eapply list_elem_of_lookup_2.
    + apply (IH i j); [lia|done|done].
Qed.

Lemma decorate_keys {A K} (key : A → outcome K) (xs : list A) : ∀ l,
  decorate key xs = Return l → Forall (λ kx, key kx.2 = Return kx.1) l.
Proof.
  induction xs as [|a xs IH]; simpl; intros l.
  - intros [= <-]. constructor.
  - destruct (key a) as [k|] eqn:Hk; [|done].
    destruct (decorate key xs) as [l'|]; [|done].
    intros [= <-]. constructor; [done|]. by apply IH.
Qed.

Lemma float_lt_weak a b c :
  a ≠ FNaN → b ≠ FNaN → c ≠ FNaN →
  float_lt c b = false → float_lt b a = false → float_lt c a = false.
Proof.
  destruct a as [|p| |], b as [|q| |], c as [|r| |]; simpl; try done.
  intros _ _ _. rewrite !negb_false_iff, !Qle_bool_iff.
  intros Hqr Hpq. by apply Qle_trans with q.
Qed.

Lemma string_ltb_weak s1 s2 s3 :
  String.ltb s3 s2 = false → String.ltb s2 s1 = false →
  String.ltb s3 s1 = false.
Proof.
  intros H32 H21. destruct (String.ltb s3 s1) eqn:H31; [|done].
  unfold String.ltb in *.
  destruct (String.compare s3 s2) eqn:C32; try done.
  - apply String.compare_eq_iff in C32 as ->. by rewrite H31 in H21.
  - destruct (String.compare s2 s1) eqn:C21; try done.
    + apply String.compare_eq_iff in C21 as ->. by rewrite C32 in H31.
    + rewrite String.compare_antisym in C32, C21.
      destruct (String.compare s2 s3) eqn:C23; try done.
      destruct (String.compare s1 s2) eqn:C12; try done.
      rewrite (String.compare_antisym s3 s1),
        (string_compare_Lt_trans _ _ _ C12 C23) in H31. done.
Qed.

Lemma key_lt_weak_text a b c :
  text_key a → text_key b → text_key c →
  key_lt c b = false → key_lt b a = false → key_lt c a = false.
Proof. intros [? ->] [? ->] [? ->]. apply string_ltb_weak. Qed.

Lemma key_lt_weak_number a b c :
  number_key a → number_key b → number_key c →
  key_lt c b = false → key_lt b a = false → key_lt c a = false.
Proof.
  intros (? & -> & ?) (? & -> & ?) (? & -> & ?). by apply float_lt_weak.
Qed.

Section PySortKeyed.
Context {A : Type} (key_of : A → outcome key) (P : key → Prop).

Hypothesis P_weak : ∀ a b c, P a → P b → P c →
  key_lt c b = false → key_lt b a = false → key_lt c a = false.

Lemma py_sort_inv reverse l l' :
  py_sort key_lt key_of reverse l = Return l' →
  ∃ kl, decorate key_of l = Return kl ∧
        l' = List.map snd (sort_decorated key_lt reverse kl).
Proof.
  unfold py_sort. destruct (decorate key_of l) as [kl|]; [|done].
  intros [= <-]. by exists kl.
Qed.

Lemma decorate_P l kl :
  decorate key_of l = Return kl →
  Forall (λ x, ∀ k, key_of x = Return k → P k) l →
  Forall (λ kx, P kx.1) kl.
Proof.
  intros Hdec Hl. pose proof (decorate_keys _ _ _ Hdec) as Hk.
  apply decorate_snd in Hdec. subst l.
  induction kl as [|[k x] kl IH]; [constructor|].
  apply Forall_cons in Hk as [Hk1 Hk]. cbn [fmap list_fmap] in Hl.
  apply Forall_cons in Hl as [Hl1 Hl].
  constructor; [by apply Hl1|by apply IH].
Qed.

(** Within a sorted list no element is followed by one that belongs
    before it, in the direction of the sort. *)
Lemma py_sort_ordered (reverse : bool) l l' :
  py_sort key_lt key_of reverse l = Return l' →
  Forall (λ x, ∀ k, key_of x = Return k → P k) l →
  ∀ i j x y kx ky,
    (i < j)%nat → l' !! i = Some x → l' !! j = Some y →
    key_of x = Return kx → key_of y = Return ky →
    (if reverse then key_lt kx ky else key_lt ky kx) = false.
Proof.
  intros (kl & Hdec & ->)%py_sort_inv Hl i j x y kx ky Hij Hi Hj Hx Hy.
  pose proof (decorate_P _ _ Hdec Hl) as HP.
  pose proof (decorate_keys _ _ _ Hdec) as Hk.
  pose proof (sort_decorated_ordered key_lt P key_lt_asym P_weak reverse kl HP)
    as Hs.
  assert (Hk' : Forall (λ kx : key * A, key_of kx.2 = Return kx.1)
                  (sort_decorated key_lt reverse kl)).
  { by rewrite sort_decorated_Permutation. }
  change (List.map snd) with (fmap (M:=list) (@snd key A)) in Hi, Hj.
  apply list_lookup_fmap_Some in Hi as ([k1 x1] & -> & Hi).
  apply list_lookup_fmap_Some in Hj as ([k2 y1] & -> & Hj).
  rewrite Forall_forall in Hk'.
  pose proof (Hk' _ (list_elem_of_lookup_2 _ _ _ Hi)) as E1.
  pose proof (Hk' _ (list_elem_of_lookup_2 _ _ _ Hj)) as E2.
  cbn in E1, E2, Hx, Hy. rewrite Hx in E1. rewrite Hy in E2.
  injection E1 as ->. injection E2 as ->.
  pose proof (StronglySorted_lookup _ _ _ _ _ _ Hs Hij Hi Hj) as R.
  by destruct reverse.
Qed.

(** In both directions the elements with a given key keep their order. *)
Lemma py_sort_tied (reverse : bool) l l' k :
  py_sort key_lt key_of reverse l = Return l' →
  Forall (λ x, ∀ k, key_of x = Return k → P k) l →
  P k →
  List.filter (tied_by key_of k) l' = List.filter (tied_by key_of k) l.
Proof.
  intros (kl & Hdec & ->)%py_sort_inv Hl Pk.
  pose proof (decorate_P _ _ Hdec Hl) as HP.
  pose proof (decorate_keys _ _ _ Hdec) as Hk.
  assert (Hk' : Forall (λ kx : key * A, key_of kx.2 = Return kx.1)
                  (sort_decorated key_lt reverse kl)).
  { by rewrite sort_decorated_Permutation. }
  assert (Hf : ∀ s : list (key * A),
            Forall (λ kx, key_of kx.2 = Return kx.1) s →
            List.filter (tied_by key_of k) (List.map snd s)
              = List.map snd (List.filter (tied key_lt k) s)).
  { induction s as [|[k1 x] s IH]; [done|].
    intros [E Hs]%Forall_cons. cbn [List.map List.filter snd].
    unfold tied_by at 1. cbn in E. rewrite E.
    destruct (tied key_lt k (k1, x)); cbn [List.map snd]; by rewrite IH. }
  rewrite (Hf _ Hk'), (sort_decorated_tied key_lt P P_weak reverse k kl Pk HP).
  rewrite <- (Hf _ Hk). f_equal. by apply decorate_snd in Hdec.
Qed.
End PySortKeyed.

(** A sort in which every element has the same key changes nothing. *)
Lemma sort_decorated_all_tied {A K} (lt : K → K → bool) (k : K)
    (reverse : bool) (l : list (K * A)) :
  lt k k = false → Forall (λ x, x.1 = k) l → sort_decorated lt reverse l = l.
Proof.
  intros Hk.
  assert (Hs : ∀ l : list (K * A),
            Forall (λ x, x.1 = k) l → stable_sort lt l = l).
  { induction l0 as [|x l0 IH]; [done|].
    intros [Hx Hl]%Forall_cons. cbn [stable_sort foldr].
    fold (stable_sort lt l0). rewrite (IH Hl).
    destruct l0 as [|y l0]; [done|]. cbn [insert_by].
    apply Forall_cons in Hl as [Hy _]. by rewrite Hx, Hy, Hk. }
  intros Hl. unfold sort_decorated. destruct reverse; [|by apply Hs].
  rewrite Hs, rev_involutive; [done|].
  apply Forall_forall. intros y Hy. rewrite Forall_forall in Hl.
  by apply Hl, list_elem_of_In, in_rev, list_elem_of_In.
Qed.

Lemma key_lt_weak_column col a b c :
  column_key col a → column_key col b → column_key col c →
  key_lt c b = false → key_lt b a = false → key_lt c a = false.
Proof.
  unfold column_key.
  destruct col as [[]|];
    first [apply key_lt_weak_number | apply key_lt_weak_text].
Qed.

Lemma key_lt_irrefl k : key_lt k k = false.
Proof.
  destruct (key_lt k k) eqn:E; [|done]. destruct (key_lt_asym _ _ E E).
Qed.

(** Two positions of [fs ++ os] whose elements are on the same side of
    [P] lie in the same part. *)
Lemma same_part_lookup {A} (P : A → bool) (fs os : list A) i j a b :
  Forall (λ x, P x = true) fs → Forall (λ x, P x = false) os →
  (i < j)%nat → (fs ++ os) !! i = Some a → (fs ++ os) !! j = Some b →
  P a = P b →
  ∃ part i' j', (part = fs ∨ part = os) ∧ (i' < j')%nat ∧
                part !! i' = Some a ∧ part !! j' = Some b.
Proof.
  intros Hfs Hos Hij Hi Hj Hab.
  rewrite Forall_forall in Hfs, Hos.
  destruct (decide (j < length fs)%nat) as [Hjf|Hjf].
  - exists fs, i, j. split; [by left|]. split; [done|].
    rewrite lookup_app_l in Hi by lia. by rewrite lookup_app_l in Hj.
  - rewrite lookup_app_r in Hj by lia.
    destruct (decide (i < length fs)%nat) as [Hif|Hif].
    + rewrite lookup_app_l in Hi by done.
      rewrite (Hfs _ (list_elem_of_lookup_2 _ _ _ Hi)) in Hab.
      rewrite (Hos _ (list_elem_of_lookup_2 _ _ _ Hj)) in Hab. done.
    + rewrite lookup_app_r in Hi by lia.
      exists os, (i - length fs)%nat, (j - length fs)%nat.
      split; [by right|]. split; [lia|done].
Qed.

Section OrderFacts.
Context `{PyRuntime}.

Lemma sort_key_column_key col r k :
  sort_key col r = Return k → sort_key col r ≠ Return (KFloat FNaN) →
  column_key col k.
Proof.
  intros Hk Hn. rewrite Hk in Hn. revert Hk.
  unfold sort_key, column_key, lower_text.
  destruct col as [[]|];
    try (destruct (py_or _ _); try done; intros [= <-]; by eexists).
  all: intros [= <-]; eexists; split; [done|]; by intros E; rewrite E in Hn.
Qed.

Lemma comparable_keys_filter col (f : Row → bool) rows :
  comparable_keys col rows →
  Forall (λ r, ∀ k, sort_key col r = Return k → column_key col k)
    (List.filter f rows).
Proof.
  unfold comparable_keys. rewrite !Forall_forall. intros Hc r Hr k Hk.
  apply (sort_key_column_key col r k Hk), Hc.
  apply list_elem_of_In in Hr. apply List.filter_In in Hr as [Hr _].
  by apply list_elem_of_In.
Qed.

(** [refresh_tree] sorts both parts with the key of the column and in the
    direction of [sort_direction]. *)
Lemma refresh_tree_order_sorts rows current_sort ordered :
  refresh_tree_order rows current_sort = Return ordered →
  ∃ fs os, ordered = fs ++ os ∧
    py_sort key_lt (sort_key current_sort.1) (sort_direction current_sort)
      (List.filter flagged rows) = Return fs ∧
    py_sort key_lt (sort_key current_sort.1) (sort_direction current_sort)
      (List.filter (λ r, negb (flagged r)) rows) = Return os.
Proof.
  destruct current_sort as [[c|] desc].
  - apply refresh_tree_order_column.
  - unfold refresh_tree_order, sort_direction. cbn [fst snd].
    change (λ r : Row, lower_text (JStr (zotero_name r)))
      with (sort_key None).
    destruct (py_sort key_lt (sort_key None) false (List.filter flagged rows))
      as [fs|]; [|done].
    destruct (py_sort key_lt (sort_key None) false
                (List.filter (λ r, negb (flagged r)) rows)) as [os|]; [|done].
    intros [= <-]. by exists fs, os.
Qed.

Lemma refresh_tree_order_sorted rows current_sort ordered fs os :
  ordered = fs ++ os →
  py_sort key_lt (sort_key current_sort.1) (sort_direction current_sort)
    (List.filter flagged rows) = Return fs →
  py_sort key_lt (sort_key current_sort.1) (sort_direction current_sort)
    (List.filter (λ r, negb (flagged r)) rows) = Return os →
  comparable_keys current_sort.1 rows →
  ∀ i j r1 r2 k1 k2,
    (i < j)%nat → ordered !! i = Some r1 → ordered !! j = Some r2 →
    flagged r1 = flagged r2 →
    sort_key current_sort.1 r1 = Return k1 →
    sort_key current_sort.1 r2 = Return k2 →
    (if sort_direction current_sort then key_lt k1 k2 else key_lt k2 k1)
      = false.
Proof.
  intros -> Hfs Hos Hc i j r1 r2 k1 k2 Hij Hi Hj Hfl Hk1 Hk2.
  assert (Ff : Forall (λ r, flagged r = true) fs).
  { rewrite (py_sort_Permutation _ _ _ _ _ Hfs). apply Forall_filter_true. }
  assert (Fo : Forall (λ r, flagged r = false) os).
  { rewrite (py_sort_Permutation _ _ _ _ _ Hos).
    eapply Forall_impl; [apply Forall_filter_true|].
    intros r. cbv beta. by destruct (flagged r). }
  destruct (same_part_lookup flagged fs os i j r1 r2 Ff Fo Hij Hi Hj Hfl)
    as (part & i' & j' & [->| ->] & Hij' & Hi' & Hj').
  - eapply (py_sort_ordered _ (column_key current_sort.1)
              (key_lt_weak_column current_sort.1) _ _ _ Hfs
              (comparable_keys_filter _ _ _ Hc)); eauto.
  - eapply (py_sort_ordered _ (column_key current_sort.1)
              (key_lt_weak_column current_sort.1) _ _ _ Hos
              (comparable_keys_filter _ _ _ Hc)); eauto.
Qed.

(** X17 — Each part of the Authors table is sorted: when no sort key is
    NaN, of two rows of the same part (both flagged or both not) the one
    shown later never has the smaller key in ascending order, nor the
    larger one in descending order; without a chosen column the order is
    ascending by lower-cased name. *)
Theorem refresh_tree_parts_sorted rows current_sort ordered :
  refresh_tree_order rows current_sort = Return ordered →
  comparable_keys current_sort.1 rows →
  ∀ i j r1 r2 k1 k2,
    (i < j)%nat → ordered !! i = Some r1 → ordered !! j = Some r2 →
    flagged r1 = flagged r2 →
    sort_key current_sort.1 r1 = Return k1 →
    sort_key current_sort.1 r2 = Return k2 →
    (if sort_direction current_sort then key_lt k1 k2 else key_lt k2 k1)
      = false.
Proof.
  intros (fs & os & Hord & Hfs & Hos)%refresh_tree_order_sorts Hc.
  by eapply refresh_tree_order_sorted.
Qed.

(** X18 — Ties keep their order in both directions: when no sort key is
    NaN, the rows whose key equals the key of a given row appear in the
    Authors table in the order they have in [self.rows], the flagged ones
    first, whether the sort is ascending or descending. *)
Theorem refresh_tree_keeps_ties rows current_sort ordered r0 k :
  refresh_tree_order rows current_sort = Return ordered →
  comparable_keys current_sort.1 rows →
  r0 ∈ rows → sort_key current_sort.1 r0 = Return k →
  List.filter (tied_row current_sort.1 k) ordered
    = List.filter (tied_row current_sort.1 k) (List.filter flagged rows) ++
      List.filter (tied_row current_sort.1 k)
        (List.filter (λ r, negb (flagged r)) rows).
Proof.
  intros (fs & os & -> & Hfs & Hos)%refresh_tree_order_sorts Hc Hr0 Hk.
  assert (Pk : column_key current_sort.1 k).
  { apply (sort_key_column_key _ r0); [done|].
    unfold comparable_keys in Hc. rewrite Forall_forall in Hc. by apply Hc. }
  rewrite List.filter_app. unfold tied_row. f_equal.
  - by apply (py_sort_tied _ (column_key current_sort.1)
                (key_lt_weak_column current_sort.1) _ _ _ _ Hfs
                (comparable_keys_filter _ _ _ Hc)).
  - by apply (py_sort_tied _ (column_key current_sort.1)
                (key_lt_weak_column current_sort.1) _ _ _ _ Hos
                (comparable_keys_filter _ _ _ Hc)).
Qed.

(** X19 — Blank numbers sort first: in ascending order of the h-index or
    of the paper count, a row shown before a row of the same part whose
    value is [None] or the empty text has the key minus infinity itself
    (its value is blank, not a number, or minus infinity). *)
Theorem blank_numbers_sort_first rows col ordered i j r1 r2 :
  col = col_hindex ∨ col = col_papers →
  refresh_tree_order rows (Some col, false) = Return ordered →
  comparable_keys (Some col) rows →
  (i < j)%nat → ordered !! i = Some r1 → ordered !! j = Some r2 →
  flagged r1 = flagged r2 →
  is_blank (row_get col r2) = true →
  sort_key (Some col) r1 = Return (KFloat FNegInf).
Proof.
  intros Hcol Hret Hc Hij Hi Hj Hfl Hblank.
  assert (H2 : sort_key (Some col) r2 = Return (KFloat FNegInf)).
  { unfold sort_key. destruct Hcol as [-> | ->]; by rewrite Hblank. }
  assert (H1 : ∃ f, sort_key (Some col) r1 = Return (KFloat f) ∧ f ≠ FNaN).
  { assert (Hin : r1 ∈ rows).
    { destruct (refresh_tree_order_parts _ _ _ Hret)
        as (fs & os & -> & Pf & Po).
      apply list_elem_of_lookup_2 in Hi.
      rewrite Pf, Po, (filter_split flagged) in Hi. done. }
    unfold comparable_keys in Hc. rewrite Forall_forall in Hc.
    specialize (Hc _ Hin). revert Hc. unfold sort_key.
    destruct Hcol as [-> | ->]; intros Hc; eexists; (split; [done|]);
      intros E; by rewrite E in Hc. }
  destruct H1 as (f & H1 & Hf).
  apply refresh_tree_order_sorts in Hret as (fs & os & Hord & Hfs & Hos).
  pose proof (refresh_tree_order_sorted rows (Some col, false) ordered fs os
                Hord Hfs Hos Hc i j r1 r2 _ _ Hij Hi Hj Hfl H1 H2) as Hlt.
  cbn in Hlt. rewrite H1. by destruct f.
Qed.

(** X20 — The rebuilt Co-authors table is only sorted by name, main
    authors or count: the index it is built from has just been reset, so
    for the columns coauthor_name, ss_name, hindex, papers and ss_id every
    key is the same and the table shows the index in the order in which
    the coauthors were first met, ascending or descending. *)
Theorem rebuilt_table_in_index_order rows col desc old :
  col ≠ ccol_mains → col ≠ ccol_count →
  ctree (build_coauthor_index rows (Some col, desc) old) = aggregate rows.
Proof.
  intros Hm Hc. unfold build_coauthor_index. cbn [ctree].
  destruct (aggregate_invariant rows) as [_ Hall].
  assert (Hfresh : Forall (λ it : string * Entry, fresh_entry it.2)
                     (aggregate rows)).
  { eapply Forall_impl; [exact Hall|]. by intros it [_ ?]. }
  clear Hall. generalize dependent (aggregate rows). intros items Hfresh.
  unfold co_order.
  rewrite (filter_none (λ it : string * Entry, co_flagged it.2)),
    (filter_all (λ it : string * Entry, negb (co_flagged it.2))).
  2:{ eapply Forall_impl; [exact Hfresh|].
      intros it (-> & _). done. }
  2:{ eapply Forall_impl; [exact Hfresh|]. by intros it (? & _). }
  set (k := co_sort_key (Some col) ("", new_entry)).
  assert (Hsort : ∀ l : list (string * Entry),
            Forall (λ it, fresh_entry it.2) l →
            List.map snd
              (sort_decorated key_lt desc
                 (List.map (λ it, (co_sort_key (Some col) it, it)) l)) = l).
  { intros l Hl. rewrite (sort_decorated_all_tied key_lt k).
    - rewrite List.map_map. cbn [snd]. apply List.map_id.
    - apply key_lt_irrefl.
    - apply Forall_forall.
      intros x [it [<- Hit]]%list_elem_of_In%List.in_map_iff.
      cbn [fst]. apply list_elem_of_In in Hit.
      rewrite Forall_forall in Hl.
      destruct (Hl _ Hit) as (_ & E1 & E2 & E3 & E4).
      destruct it as [name meta]. unfold k, co_sort_key.
      cbn in E1, E2, E3, E4.
      destruct col; try done; cbn; by rewrite ?E1, ?E2, ?E3, ?E4. }
  rewrite (Hsort [] (Forall_nil_2 _)), (Hsort items Hfresh). done.
Qed.
End OrderFacts.
